(** * Cross-compiler toolchain helpers: a model of tools/cross_compiler/common.py

    The development embeds the helper module of the cross-compiler tooling:
    the scoped working directory, the two subprocess runners with their
    logging, the guarded extraction of a toolchain archive followed by the
    run of its installers, and the choice of the host compiler packages.

    Python text is modelled by [string], read as a sequence of code points
    below 256; process output is modelled by [list byte].  Effects (the
    working directory, the files written by an extraction, the processes
    started, the log) live in an explicit [World] that every operation
    threads, together with the exception it may raise. *)

From Stdlib Require Import ZArith Ascii String List Permutation.
From stdpp Require Import base decidable option list strings gmap fin_maps pretty.

Local Open Scope Z_scope.

(** ** Text primitives (the [str] methods the module relies on) *)

Module Str.

(** [s.startswith(p)] *)
Fixpoint startswith (p s : string) : bool :=
  match p, s with
  | EmptyString, _ => true
  | String a p', String b s' => if Ascii.eqb a b then startswith p' s' else false
  | String _ _, EmptyString => false
  end.

(** [s.endswith(p)] *)
Definition endswith (p s : string) : bool :=
  startswith (String.rev p) (String.rev s).

(** [needle in s]: the needle occurs at some position of [s]. *)
Fixpoint contains (needle s : string) : bool :=
  startswith needle s ||
  match s with
  | EmptyString => false
  | String _ s' => contains needle s'
  end.

(** [s.split(sep)] for a one-character separator: empty fields are kept. *)
Fixpoint split (sep : ascii) (s : string) : list string :=
  match s with
  | EmptyString => [EmptyString]
  | String c s' =>
      if Ascii.eqb c sep then EmptyString :: split sep s'
      else match split sep s' with
           | h :: t => String c h :: t
           | [] => [String c EmptyString]
           end
  end.

(** [sep.join(l)] *)
Fixpoint join (sep : string) (l : list string) : string :=
  match l with
  | [] => EmptyString
  | [x] => x
  | x :: rest => x +:+ sep +:+ join sep rest
  end.

(** [s.lstrip(c)] for a single character. *)
Fixpoint lstrip (c : ascii) (s : string) : string :=
  match s with
  | String a s' => if Ascii.eqb a c then lstrip c s' else s
  | EmptyString => EmptyString
  end.

(** [s.rstrip(c)] for a single character. *)
Definition rstrip (c : ascii) (s : string) : string :=
  String.rev (lstrip c (String.rev s)).

(** [s == c * len(s)]: every character of [s] is [c]. *)
Fixpoint all_char (c : ascii) (s : string) : bool :=
  match s with
  | EmptyString => true
  | String a s' => Ascii.eqb a c && all_char c s'
  end.

(** [str.isspace] on one code point below 256. *)
Definition isspace (c : ascii) : bool :=
  let n := N_of_ascii c in
  ((9 <=? n) && (n <=? 13) || (28 <=? n) && (n <=? 32) ||
   (n =? 133) || (n =? 160))%N.

Definition flush (tok : string) : list string :=
  match tok with EmptyString => [] | _ => [tok] end.

(** [s.split()] with no argument: runs of whitespace separate the
    fields and no empty field is produced.  [tok] is the field being
    read. *)
Fixpoint split_ws_from (tok : string) (s : string) : list string :=
  match s with
  | EmptyString => flush tok
  | String c s' =>
      if isspace c then flush tok ++ split_ws_from EmptyString s'
      else split_ws_from (tok +:+ String c EmptyString) s'
  end.

Definition split_ws (s : string) : list string := split_ws_from EmptyString s.

(** The longest common prefix of two texts, character by character. *)
Fixpoint lcp (a b : string) : string :=
  match a, b with
  | String x a', String y b' =>
      if Ascii.eqb x y then String x (lcp a' b') else EmptyString
  | _, _ => EmptyString
  end.

(** The line feed. *)
Definition nl : string := String "010"%char EmptyString.

(** What [" ".join(str(w) for w in s)] gives when [s] is itself a text:
    its characters, separated by blanks. *)
Definition chars (s : string) : list string :=
  (fun c => String c EmptyString) <$> list_ascii_of_string s.

End Str.

(** ** [os.path] (posixpath) *)

Module PosixPath.

Definition sep : ascii := "/"%char.

(** [os.path.join(a, b)] *)
Definition join (a b : string) : string :=
  if Str.startswith "/" b then b
  else if bool_decide (a = "") || Str.endswith "/" a then a +:+ b
  else a +:+ "/" +:+ b.

Definition isabs (p : string) : bool := Str.startswith "/" p.

(** One turn of the loop of [normpath] over the components. *)
Definition normpath_step (initial_slashes : nat) (new_comps : list string)
    (comp : string) : list string :=
  if bool_decide (comp = "") || bool_decide (comp = ".") then new_comps
  else if negb (bool_decide (comp = ".."))
          || (bool_decide (initial_slashes = 0%nat) && bool_decide (new_comps = []))
          || (negb (bool_decide (new_comps = []))
              && bool_decide (List.last new_comps "" = ".."))
       then new_comps ++ [comp]
       else List.removelast new_comps.

(** [os.path.normpath(path)] *)
Definition normpath (path : string) : string :=
  if bool_decide (path = "") then "."
  else
    let initial_slashes :=
      if Str.startswith "/" path then
        if Str.startswith "//" path && negb (Str.startswith "///" path)
        then 2%nat else 1%nat
      else 0%nat in
    let comps := fold_left (normpath_step initial_slashes) (Str.split sep path) [] in
    let path' := Str.join "/" comps in
    let path' :=
      match initial_slashes with
      | 0%nat => path'
      | 1%nat => "/" +:+ path'
      | _ => "//" +:+ path'
      end in
    if bool_decide (path' = "") then "." else path'.

(** [os.path.abspath(path)], with the working directory passed in. *)
Definition abspath (cwd path : string) : string :=
  normpath (if isabs path then path else join cwd path).

(** [os.path.commonprefix(m)]: the longest text that is a prefix,
    character by character, of every element of [m]. *)
Definition commonprefix (m : list string) : string :=
  match m with
  | [] => ""
  | x :: rest => fold_left Str.lcp rest x
  end.

(** The part of [p] up to and including its last separator. *)
Definition head_to_last_sep (p : string) : string :=
  let fix drop (s : string) : string :=
    match s with
    | String c s' => if Ascii.eqb c sep then s else drop s'
    | EmptyString => EmptyString
    end in
  String.rev (drop (String.rev p)).

(** [os.path.dirname(p)] *)
Definition dirname (p : string) : string :=
  let head := head_to_last_sep p in
  if negb (bool_decide (head = "")) && negb (Str.all_char sep head)
  then Str.rstrip sep head else head.

End PosixPath.

(** ** [pathlib] (pure POSIX paths) *)

Module Pathlib.

(** A parsed path: its root ([""], ["/"] or ["//"]) and its components. *)
Record Path := mkPath { root : string; parts : list string }.

(** [splitroot] of the POSIX flavour. *)
Definition splitroot (part : string) : string * string :=
  if Str.startswith "/" part then
    let stripped := Str.lstrip PosixPath.sep part in
    if bool_decide (String.length part - String.length stripped = 2)%nat
    then ("//", stripped) else ("/", stripped)
  else ("", part).

(** [Path(s)]: empty and ["."] components are dropped, [".."] is kept. *)
Definition of_string (s : string) : Path :=
  let '(r, rel) := splitroot s in
  mkPath r (filter (fun x => x ≠ "" ∧ x ≠ ".") (Str.split PosixPath.sep rel)).

(** [p / q] *)
Definition div (p q : Path) : Path :=
  if bool_decide (root q = "") then mkPath (root p) (parts p ++ parts q) else q.

(** [p.parent] *)
Definition parent (p : Path) : Path :=
  mkPath (root p) (List.removelast (parts p)).

(** [str(p)] *)
Definition to_string (p : Path) : string :=
  let s := root p +:+ Str.join "/" (parts p) in
  if bool_decide (s = "") then "." else s.

End Pathlib.

(** ** Errors, the world and the effect monad *)

Inductive Level := DEBUG | INFO | WARNING | ERROR.

(** A word of a command given as a list: a text or a path object. *)
Inductive Word :=
| WStr (s : string)
| WPath (p : Pathlib.Path).

(** [str(w)] *)
Definition word_str (w : Word) : string :=
  match w with
  | WStr s => s
  | WPath p => Pathlib.to_string p
  end.

(** The [args] of a subprocess: a list of words or one text. *)
Inductive Args :=
| ArgList (l : list Word)
| ArgStr (s : string).

(** The exceptions the module raises or lets through. *)
Inductive Error :=
| FileNotFoundError (msg : string)
| FileExistsError (msg : string)
| Exception_ (msg : string)
| CalledProcessError (returncode : Z) (cmd : Args) (output stderr : string)
| TimeoutExpired (cmd : Args) (timeout : N)
| UnicodeDecodeError
| LoggingError (level : Level) (msg : string).

Inductive Result (A : Type) :=
| Ok (a : A)
| Raise (e : Error).
Arguments Ok {A} a.
Arguments Raise {A} e.

(** One call of [subprocess.run], as the child process sees it:
    [sp_env] is the environment the child starts with. *)
Record Spawn := mkSpawn {
  sp_args : Args;
  sp_shell : bool;
  sp_cwd : option string;
  sp_env : gmap string string;
  sp_timeout : option N
}.

(** What a finished child leaves behind; [elapsed] is its running time,
    in the unit of the timeouts. *)
Record Finished := mkFinished {
  exit_status : Z;
  out_bytes : list Byte.byte;
  err_bytes : list Byte.byte;
  elapsed : N
}.

(** [subprocess.CompletedProcess]; [T] is [list Byte.byte] as returned by
    [subprocess.run] and [string] once the streams are decoded. *)
Record CompletedProcess (T : Type) := mkCompleted {
  args : Args;
  returncode : Z;
  stdout : T;
  stderr : T
}.
Arguments mkCompleted {T}.
Arguments args {T}.
Arguments returncode {T}.
Arguments stdout {T}.
Arguments stderr {T}.

(** The state the module reads and writes. *)
Record World := mkWorld {
  cwd : string;                   (* os.getcwd() *)
  dirs : gset string;             (* the directories that exist *)
  environ : gmap string string;   (* os.environ *)
  files : list string;            (* paths written by extractions *)
  spawned : list Spawn;           (* child processes started, oldest first *)
  log : list (Level * string)     (* records emitted, oldest first *)
}.

Definition set_cwd (d : string) (w : World) : World :=
  mkWorld d (dirs w) (environ w) (files w) (spawned w) (log w).
Definition add_files (l : list string) (w : World) : World :=
  mkWorld (cwd w) (dirs w) (environ w) (files w ++ l) (spawned w) (log w).
Definition add_spawn (sp : Spawn) (w : World) : World :=
  mkWorld (cwd w) (dirs w) (environ w) (files w) (spawned w ++ [sp]) (log w).
Definition add_log (lvl : Level) (msg : string) (w : World) : World :=
  mkWorld (cwd w) (dirs w) (environ w) (files w) (spawned w) (log w ++ [(lvl, msg)]).

(** A computation: from a world to a value or an exception, and the world
    it leaves (what was done before an exception stays done). *)
Definition M (A : Type) : Type := World -> Result A * World.

#[global] Instance M_ret : MRet M := fun A a w => (Ok a, w).
#[global] Instance M_bind : MBind M := fun A B f m w =>
  match m w with
  | (Ok a, w') => f a w'
  | (Raise e, w') => (Raise e, w')
  end.

Definition raise {A} (e : Error) : M A := fun w => (Raise e, w).
Definition gets {A} (f : World -> A) : M A := fun w => (Ok (f w), w).
Definition modify (f : World -> World) : M unit := fun w => (Ok tt, f w).

(** [try: body  except Exception as e: handler e] *)
Definition try_except {A} (body : M A) (handler : Error -> M A) : M A := fun w =>
  match body w with
  | (Ok a, w') => (Ok a, w')
  | (Raise e, w') => handler e w'
  end.

(** [try: body  finally: final] *)
Definition try_finally {A} (body : M A) (final : M unit) : M A := fun w =>
  match body w with
  | (r, w') =>
      match final w' with
      | (Ok _, w'') => (r, w'')
      | (Raise e, w'') => (Raise e, w'')
      end
  end.

(** [for x in l: body x] *)
Fixpoint for_each {A} (l : list A) (body : A -> M unit) : M unit :=
  match l with
  | [] => mret tt
  | x :: rest => body x ;; for_each rest body
  end.

(** [" ".join(str(w) for w in args)]: over a list, the words; over a
    text, its characters. *)
Definition joined_args (a : Args) : string :=
  match a with
  | ArgList l => Str.join " " (word_str <$> l)
  | ArgStr s => Str.join " " (Str.chars s)
  end.

(** A logger: [accepts lvl msg] tells whether the handler emits the record
    or raises on it. *)
Record Logger := mkLogger { accepts : Level -> string -> bool }.

Definition log_call (logger : Logger) (lvl : Level) (msg : string) : M unit := fun w =>
  if accepts logger lvl msg then (Ok tt, add_log lvl msg w)
  else (Raise (LoggingError lvl msg), w).

(** What lies outside the module: the codec of [bytes.decode()], the text
    Python prints for [s.encode('utf-8')], the behaviour of a child process
    given the processes started before it, [logging.getLogger], and the
    file system under an extraction: [extract_stop dirs files targets] is
    [None] when the targets can all be written, and [Some (n, e)] when the
    operating system refuses the target after the first [n] with the
    error [e]. *)
Class Host := {
  decode : list Byte.byte -> option string;
  encoded_repr : string -> string;
  exec : list Spawn -> Spawn -> Finished;
  getLogger : string -> Logger;
  extract_stop : gset string -> list string -> list string -> option (nat * Error)
}.

(** ** The module *)

Abbreviation nl := Str.nl.

Inductive Arch := AARCH64 | ARMV7L | ARMV7LHF.

(** [arch.value], which is also [str(arch)]. *)
Definition Arch_value (arch : Arch) : string :=
  match arch with
  | AARCH64 => "aarch64"
  | ARMV7L => "armv7l"
  | ARMV7LHF => "armv7lhf"
  end.

(** A member of a tar archive; only its name is looked at. *)
Record TarInfo := mkTarInfo { name : string }.

Definition getcwd : M string := gets cwd.

(** [os.chdir(d)]: fails when the directory does not exist. *)
Definition chdir (d : string) : M unit := fun w =>
  let target := PosixPath.abspath (cwd w) d in
  if bool_decide (d ≠ "") && bool_decide (target ∈ dirs w)
  then (Ok tt, set_cwd target w)
  else (Raise (FileNotFoundError d), w).

(** [with working_directory(target_directory) as d: body d] *)
Definition working_directory {A} (target_directory : string)
    (body : string -> M A) : M A :=
  current_directory ← getcwd;
  try_finally
    (chdir target_directory ;; body target_directory)
    (chdir current_directory).

Section Module_.
Context `{Host}.

(** [b.decode()] *)
Definition bytes_decode (b : list Byte.byte) : M string :=
  match decode b with
  | Some s => mret s
  | None => raise UnicodeDecodeError
  end.

(** [subprocess.run(...)] with both output streams captured: the child is
    started, and a timeout shorter than its running time raises.  The
    calls covered are those whose child the operating system starts. *)
Definition subprocess_run (sp : Spawn) : M (CompletedProcess (list Byte.byte)) := fun w =>
  let r := exec (spawned w) sp in
  let w' := add_spawn sp w in
  match sp_timeout sp with
  | Some t =>
      if (t <? elapsed r)%N then (Raise (TimeoutExpired (sp_args sp) t), w')
      else (Ok (mkCompleted (sp_args sp) (exit_status r) (out_bytes r) (err_bytes r)), w')
  | None =>
      (Ok (mkCompleted (sp_args sp) (exit_status r) (out_bytes r) (err_bytes r)), w')
  end.

Definition cmd_returned (cmd : string) (return_code : Z) : string :=
  "CMD <" +:+ cmd +:+ "> RETURNED <" +:+ pretty return_code +:+ ">." +:+ nl.

Definition check_subprocess_output
    (subprocess_output : CompletedProcess (list Byte.byte)) (logger : Logger) : M unit :=
  let cmd := joined_args (args subprocess_output) in
  let return_code := returncode subprocess_output in
  subprocess_stdout ← bytes_decode (stdout subprocess_output);
  subprocess_stderr ← bytes_decode (stderr subprocess_output);
  let log_message := cmd_returned cmd return_code in
  let log_message :=
    if bool_decide (subprocess_stdout ≠ "")
    then log_message +:+ (log_message +:+ "STDOUT was:" +:+ nl +:+ subprocess_stdout +:+ nl)
    else log_message in
  let log_message :=
    if bool_decide (subprocess_stderr ≠ "")
    then log_message +:+ (log_message +:+ "STDERR was:" +:+ nl +:+ subprocess_stderr +:+ nl)
    else log_message in
  if bool_decide (return_code = 0) then
    try_except
      (log_call logger DEBUG log_message)
      (fun _ =>
         log_call logger WARNING "An error occurred when trying to logging the output date" ;;
         log_call logger DEBUG ("Encoded log message:" +:+ nl +:+ encoded_repr log_message))
  else
    try_except
      (log_call logger ERROR ("An error occurred when running a sub-process: " +:+ log_message))
      (fun _ =>
         log_call logger ERROR "An error occurred when trying to logging the output date" ;;
         log_call logger ERROR ("Encoded log message:" +:+ nl +:+ encoded_repr log_message)) ;;
    raise (CalledProcessError return_code (ArgStr cmd) subprocess_stdout subprocess_stderr).

(** The loop [for key, value in update_env.items(): current_env[key] = value]
    over a copy of [os.environ]. *)
Definition updated_env (os_environ update_env : gmap string string) : gmap string string :=
  map_fold (fun key value current_env => <[key:=value]> current_env) os_environ update_env.

Definition run_subprocess (command_line : string) (logger : Logger)
    (check_output : bool) (cwd : option string) (shell : bool)
    (update_env : option (gmap string string)) : M unit :=
  let update_env := default ∅ update_env in
  os_environ ← gets environ;
  let current_env := updated_env os_environ update_env in
  output ←
    (if shell then
       subprocess_run (mkSpawn (ArgStr command_line) true cwd current_env None)
     else
       subprocess_run
         (mkSpawn (ArgList (WStr <$> Str.split_ws command_line)) false cwd current_env None));
  if check_output then check_subprocess_output output logger else mret tt.

(** The member names that are taken for installers. *)
Definition is_installer (member : TarInfo) : bool := Str.contains ".sh" (name member).

Definition toolchain_installers_of (tar_path : Pathlib.Path)
    (members : list TarInfo) : list Pathlib.Path :=
  (fun member => Pathlib.div (Pathlib.parent tar_path) (Pathlib.of_string (name member)))
    <$> filter (fun member => is_installer member = true) members.

Definition is_within_directory (directory target : string) : M bool :=
  current ← getcwd;
  let abs_directory := PosixPath.abspath current directory in
  let abs_target := PosixPath.abspath current target in
  let prefix := PosixPath.commonprefix [abs_directory; abs_target] in
  mret (bool_decide (prefix = abs_directory)).

(** [tar.extractall(path)], with no extraction filter: the members are
    written in archive order, each at its name joined to [path]; an error
    of the operating system on one of them is raised there, with the
    members ahead of it written and the later ones not. *)
Definition extractall (tar : list TarInfo) (path : string) : M unit := fun w =>
  let targets := (fun member => PosixPath.join path (name member)) <$> tar in
  match extract_stop (dirs w) (files w) targets with
  | None => (Ok tt, add_files targets w)
  | Some (n, e) => (Raise e, add_files (take n targets) w)
  end.

Definition safe_extract (tar : list TarInfo) (path : string) : M unit :=
  for_each tar (fun member =>
    let member_path := PosixPath.join path (name member) in
    within ← is_within_directory path member_path;
    if negb within then raise (Exception_ "Attempted Path Traversal in Tar File")
    else mret tt) ;;
  extractall tar path.

(** [tar_file] is the content of the archive that [tarfile.open] finds
    at [tar_path]. *)
Definition extract_and_install_toolchain (tar_path : Pathlib.Path)
    (tar_file : list TarInfo) (dir_to_install_toolchain_in : string)
    (logger : Logger) : M unit :=
  log_call logger INFO "extracting toolchain" ;;
  let tar_dir := PosixPath.dirname (Pathlib.to_string tar_path) in
  toolchain_installers ←
    (let toolchain_installers := toolchain_installers_of tar_path tar_file in
     if bool_decide (length toolchain_installers = 0%nat)
     then raise (FileNotFoundError "No toolchain installer found")
     else safe_extract tar_file tar_dir ;; mret toolchain_installers);
  log_call logger INFO "installing toolchain" ;;
  for_each toolchain_installers (fun toolchain_installer =>
    log_call logger INFO ("installing " +:+ Pathlib.to_string toolchain_installer) ;;
    run_subprocess
      (Pathlib.to_string toolchain_installer +:+ " -d " +:+
       dir_to_install_toolchain_in +:+ " -y")
      logger true None false None).

(** *** ShellRunner *)

Record ShellRunner := mkShellRunner { _logger : Logger }.

(** [ShellRunner(logger)] *)
Definition ShellRunner_init (logger : option Logger) : ShellRunner :=
  mkShellRunner (default (getLogger "shell_runner") logger).

(** [str(word) if type(word) is Path else word]: pathlib only ever builds
    instances of the concrete classes below [Path], so the test holds for
    no word and each one is left as it is; it is read through [str] when
    the command is started or logged. *)
Definition _convert_pathlib_instance_to_str (arr : list Word) : list Word :=
  (fun word => word) <$> arr.

Definition _log_subprocess (self : ShellRunner)
    (subprocess_results : CompletedProcess string) : M unit :=
  let out := stdout subprocess_results in
  let err := stderr subprocess_results in
  let return_code := returncode subprocess_results in
  let cmd := joined_args (args subprocess_results) in
  let log_message := cmd_returned cmd return_code in
  let log_message :=
    if bool_decide (out ≠ "")
    then log_message +:+ "STDOUT was:" +:+ nl +:+ out +:+ nl
    else log_message in
  let log_message :=
    if bool_decide (err ≠ "")
    then log_message +:+ "STDERR was:" +:+ nl +:+ err +:+ nl
    else log_message in
  if bool_decide (return_code = 0) then
    log_call (_logger self) DEBUG log_message
  else
    log_call (_logger self) ERROR
      ("An error occurred when running a sub-process: " +:+ log_message).

(** [p.check_returncode()] *)
Definition check_returncode (p : CompletedProcess string) : M unit :=
  if bool_decide (returncode p ≠ 0)
  then raise (CalledProcessError (returncode p) (args p) (stdout p) (stderr p))
  else mret tt.

(** [self.run(shell_cmd, env, ignore_errors, timeout, shell, cwd)]:
    [env] goes to [subprocess.run] as it is, and a child started with
    no [env] inherits [os.environ]. *)
Definition ShellRunner_run (self : ShellRunner) (shell_cmd : Args)
    (env : option (gmap string string)) (ignore_errors : bool)
    (timeout : option N) (shell : bool) (cwd : option string)
    : M (CompletedProcess string) :=
  let shell_cmd :=
    match shell_cmd with
    | ArgList l => ArgList (_convert_pathlib_instance_to_str l)
    | ArgStr s => ArgStr s
    end in
  os_environ ← gets environ;
  p ← subprocess_run (mkSpawn shell_cmd shell cwd (default os_environ env) timeout);
  p_stdout ← bytes_decode (stdout p);
  p_stderr ← bytes_decode (stderr p);
  let p := mkCompleted (args p) (returncode p) p_stdout p_stderr in
  _log_subprocess self p ;;
  (if negb ignore_errors then check_returncode p else mret tt) ;;
  mret p.

Definition apt_packages (arch : Arch) : list string :=
  match arch with
  | ARMV7L => ["g++-arm-linux-gnueabi"; "gcc-arm-linux-gnueabi"]
  | ARMV7LHF => ["g++-arm-linux-gnueabihf"; "gcc-arm-linux-gnueabihf"]
  | _ => ["g++-" +:+ Arch_value arch +:+ "-linux-gnu";
          "gcc-" +:+ Arch_value arch +:+ "-linux-gnu"]
  end.

Definition install_compilers_apt_packages (arch : Arch) : M unit :=
  let runner := ShellRunner_init None in
  ShellRunner_run runner
    (ArgStr ("sudo apt-get install -y " +:+ Str.join " " (apt_packages arch)))
    None false None true None ;;
  mret tt.

End Module_.

(** ** Sample hosts, loggers and worlds *)

Module Sample.

(** Accepts every record. *)
Definition steady_logger : Logger := mkLogger (fun _ _ => true).

(** Raises on the entry that reports a command, at any level, and accepts
    the other records. *)
Definition fragile_logger : Logger :=
  mkLogger (fun _ msg =>
    negb (Str.startswith "CMD <" msg
          || Str.startswith "An error occurred when running" msg)).

(** Decodes the output made of code points below 128 only. *)
Definition ascii_decode (b : list Byte.byte) : option string :=
  if forallb (fun x => (Byte.to_N x <? 128)%N) b
  then Some (string_of_list_byte b) else None.

(** A child fails, with a line on its standard error, exactly when its
    command mentions [fail]. *)
Definition scripted_exec (history : list Spawn) (sp : Spawn) : Finished :=
  let line :=
    match sp_args sp with
    | ArgList l => Str.join " " (word_str <$> l)
    | ArgStr s => s
    end in
  if Str.contains "fail" line
  then mkFinished 1 [] (list_byte_of_string "boom") 3
  else mkFinished 0 (list_byte_of_string "done") [] 3.

#[local] Instance host : Host := {|
  decode := ascii_decode;
  encoded_repr := fun s => "b'" +:+ s +:+ "'";
  exec := scripted_exec;
  getLogger := fun _ => steady_logger;
  extract_stop := fun _ _ _ => None
|}.

(** The same host with a root logger that raises on command entries. *)
Definition fragile_host : Host := {|
  decode := ascii_decode;
  encoded_repr := fun s => "b'" +:+ s +:+ "'";
  exec := scripted_exec;
  getLogger := fun _ => fragile_logger;
  extract_stop := fun _ _ _ => None
|}.

Definition world : World := {|
  cwd := "/home/build";
  dirs := {[ "/"; "/home/build"; "/opt"; "/opt/dl"; "/tmp" ]};
  environ := {[ "PATH" := "/usr/bin" ]};
  files := [];
  spawned := [];
  log := []
|}.

Definition tar_path : Pathlib.Path := Pathlib.of_string "/opt/dl/toolchain.tar.gz".

End Sample.

(** ** Notions used to state the properties *)

(** A child environment is the current one with the overrides on top:
    an overridden key has the override value, any other key keeps the
    value of the current environment. *)
Definition merged_on_top (current overrides child : gmap string string) : Prop :=
  forall key,
    child !! key =
    match overrides !! key with
    | Some value => Some value
    | None => current !! key
    end.

(** [target] is the directory [directory] or lies below it (both given
    as absolute, normalised paths). *)
Definition descends_from (directory target : string) : bool :=
  bool_decide (target = directory)
  || Str.startswith
       (if Str.endswith "/" directory then directory else directory +:+ "/") target.

(** A path that, made absolute, is not below the root made absolute. *)
Definition falls_outside (cwd root target : string) : Prop :=
  descends_from (PosixPath.abspath cwd root) (PosixPath.abspath cwd target) = false.

(** The answer of [is_within_directory] in a given working directory. *)
Definition within (cwd directory target : string) : bool :=
  bool_decide
    (PosixPath.commonprefix
       [PosixPath.abspath cwd directory; PosixPath.abspath cwd target]
     = PosixPath.abspath cwd directory).

(** The extraction root of an archive. *)
Definition tar_dir_of (tar_path : Pathlib.Path) : string :=
  PosixPath.dirname (Pathlib.to_string tar_path).

(** The guard of [safe_extract] on one member. *)
Definition member_within (cwd : string) (tar_path : Pathlib.Path) (member : TarInfo) : bool :=
  within cwd (tar_dir_of tar_path) (PosixPath.join (tar_dir_of tar_path) (name member)).


(** One turn of the installation loop. *)
Definition install_one `{Host} (dir : string) (logger : Logger)
    (installer : Pathlib.Path) : M unit :=
  log_call logger INFO ("installing " +:+ Pathlib.to_string installer) ;;
  run_subprocess (Pathlib.to_string installer +:+ " -d " +:+ dir +:+ " -y")
    logger true None false None.

(** The record [_log_subprocess] emits for a finished command. *)
Definition log_entry (p : CompletedProcess string) : Level * string :=
  let head := "CMD <" +:+ joined_args (args p) +:+ "> RETURNED <"
              +:+ pretty (returncode p) +:+ ">." +:+ nl in
  let with_out :=
    if bool_decide (stdout p ≠ "")
    then head +:+ "STDOUT was:" +:+ nl +:+ stdout p +:+ nl else head in
  let with_err :=
    if bool_decide (stderr p ≠ "")
    then with_out +:+ "STDERR was:" +:+ nl +:+ stderr p +:+ nl else with_out in
  if bool_decide (returncode p = 0) then (DEBUG, with_err)
  else (ERROR, "An error occurred when running a sub-process: " +:+ with_err).

(** The table of host compiler packages, by architecture. *)
Definition package_table (arch : Arch) : gset string :=
  match arch with
  | ARMV7L => {[ "g++-arm-linux-gnueabi"; "gcc-arm-linux-gnueabi" ]}
  | ARMV7LHF => {[ "g++-arm-linux-gnueabihf"; "gcc-arm-linux-gnueabihf" ]}
  | AARCH64 => {[ "g++-aarch64-linux-gnu"; "gcc-aarch64-linux-gnu" ]}
  end.

(** The child finished within the timeout, if there is one. *)
Definition in_time (timeout : option N) (r : Finished) : bool :=
  match timeout with
  | Some t => negb (t <? elapsed r)%N
  | None => true
  end.

(** A computation that leaves one component of the world as it found it. *)
Definition preserves {A B} (f : World -> B) (m : M A) : Prop :=
  forall w, f (m w).2 = f w.

(** A component of the world that logging does not touch. *)
Definition log_free {B} (f : World -> B) : Prop :=
  forall lvl msg w, f (add_log lvl msg w) = f w.

(** A component of the world that starting a child does not touch. *)
Definition spawn_free {B} (f : World -> B) : Prop :=
  forall sp w, f (add_spawn sp w) = f w.



(** The message [check_subprocess_output] builds for a finished command
    whose streams decode to [out] and [err]: each of the two [+=] appends
    the message built so far once more, ahead of the block it adds. *)
Definition checked_message (cmd : string) (return_code : Z) (out err : string) : string :=
  let head := cmd_returned cmd return_code in
  let with_out :=
    if bool_decide (out ≠ "")
    then head +:+ (head +:+ "STDOUT was:" +:+ nl +:+ out +:+ nl) else head in
  if bool_decide (err ≠ "")
  then with_out +:+ (with_out +:+ "STDERR was:" +:+ nl +:+ err +:+ nl) else with_out.

(** The record it emits for that command. *)
Definition checked_entry (cmd : string) (return_code : Z) (out err : string)
    : Level * string :=
  if bool_decide (return_code = 0) then (DEBUG, checked_message cmd return_code out err)
  else (ERROR, "An error occurred when running a sub-process: "
               +:+ checked_message cmd return_code out err).

(** The paths [tar.extractall] writes to for an archive. *)
Definition member_paths (path : string) (tar : list TarInfo) : list string :=
  (fun member => PosixPath.join path (name member)) <$> tar.

(** What the extraction of these paths leaves written in a world: all of
    them, or those ahead of the one the operating system refuses. *)
Definition written_of `{Host} (w : World) (targets : list string) : list string :=
  match extract_stop (dirs w) (files w) targets with
  | None => targets
  | Some (n, _) => take n targets
  end.

(** A component of the world that an extraction does not touch. *)
Definition extract_free {B} (f : World -> B) : Prop :=
  forall l w, f (add_files l w) = f w.

(** A word of a command line: not empty, and free of whitespace. *)
Definition is_word (s : string) : Prop :=
  s ≠ "" /\ Forall (fun c => Str.isspace c = false) (list_ascii_of_string s).

(** ** More sample hosts *)

Module Sample_edge.

(** A child that prints one byte that is no text, and exits with zero. *)
Definition binary_exec (history : list Spawn) (sp : Spawn) : Finished :=
  mkFinished 0 [Byte.xff] [] 3.

Definition binary_host : Host := {|
  decode := Sample.ascii_decode;
  encoded_repr := fun s => "b'" +:+ s +:+ "'";
  exec := binary_exec;
  getLogger := fun _ => Sample.steady_logger;
  extract_stop := fun _ _ _ => None
|}.



(** [os.rmdir(d)], as a wrapped operation may call it. *)
Definition rmdir (d : string) : M unit := fun w =>
  let target := PosixPath.abspath (cwd w) d in
  if bool_decide (target ∈ dirs w)
  then (Ok tt, mkWorld (cwd w) (dirs w ∖ {[ target ]}) (environ w) (files w)
                 (spawned w) (log w))
  else (Raise (FileNotFoundError d), w).

(** An archive given by its bare file name. *)
Definition bare_tar_path : Pathlib.Path := Pathlib.of_string "toolchain.tar.gz".

End Sample_edge.

Example normpath_dotdot :
  PosixPath.normpath "/opt/tc/../../etc/passwd" = "/etc/passwd".
Proof. reflexivity. Qed.

Example abspath_relative :
  PosixPath.abspath "/home/build" "dl/../x" = "/home/build/x".
Proof. reflexivity. Qed.

Example dirname_plain : PosixPath.dirname "toolchain.tar.gz" = "".
Proof. reflexivity. Qed.

Example dirname_nested : PosixPath.dirname "/opt//tc.tar.gz" = "/opt".
Proof. reflexivity. Qed.

Example path_parent_div :
  Pathlib.to_string
    (Pathlib.div (Pathlib.parent (Pathlib.of_string "/opt/dl/tc.tar.gz"))
                 (Pathlib.of_string "./sdk//install.sh"))
  = "/opt/dl/sdk/install.sh".
Proof. reflexivity. Qed.

Example split_ws_example :
  Str.split_ws "  /opt/install.sh -d  /usr/local/tc -y " =
  ["/opt/install.sh"; "-d"; "/usr/local/tc"; "-y"].
Proof. reflexivity. Qed.

(** ** Facts about the text primitives *)

Section Text_facts.

Lemma app_cons (a : ascii) (s t : string) : String a s +:+ t = String a (s +:+ t).
Proof. reflexivity. Qed.

Lemma app_empty_l (t : string) : "" +:+ t = t.
Proof. reflexivity. Qed.

Lemma app_assoc_str (s t u : string) : (s +:+ t) +:+ u = s +:+ (t +:+ u).
Proof. induction s as [|a s IH]; [reflexivity|]. rewrite !app_cons. by f_equal. Qed.

Lemma startswith_app (p t : string) : Str.startswith p (p +:+ t) = true.
Proof.
  induction p as [|a p IH]; [reflexivity|].
  rewrite app_cons. cbn [Str.startswith]. by rewrite Ascii.eqb_refl.
Qed.

Lemma startswith_inv (p s : string) :
  Str.startswith p s = true -> exists t, s = p +:+ t.
Proof.
  revert s. induction p as [|a p IH]; intros s Hs.
  - by exists s.
  - destruct s as [|b s]; [discriminate|]. cbn [Str.startswith] in Hs.
    destruct (Ascii.eqb a b) eqn:Hab; [|discriminate].
    apply Ascii.eqb_eq in Hab as ->.
    destruct (IH _ Hs) as [t ->]. by exists t.
Qed.

Lemma app_empty_r_str (s : string) : s +:+ "" = s.
Proof. induction s as [|a s IH]; [reflexivity|]. rewrite app_cons. by f_equal. Qed.

Lemma startswith_app_l (p q s : string) :
  Str.startswith (p +:+ q) s = true -> Str.startswith p s = true.
Proof.
  intros [t ->]%startswith_inv. rewrite app_assoc_str. apply startswith_app.
Qed.

Lemma contains_spec (needle s : string) :
  Str.contains needle s = true <->
  exists pre post, s = pre +:+ needle +:+ post.
Proof.
  split.
  - induction s as [|a s IH]; cbn [Str.contains]; intros Hc.
    + apply orb_true_iff in Hc as [Hc|Hc]; [|discriminate].
      apply startswith_inv in Hc as [t Ht]. by exists "", t.
    + apply orb_true_iff in Hc as [Hc|Hc].
      * apply startswith_inv in Hc as [t Ht]. by exists "", t.
      * destruct (IH Hc) as (pre & post & ->). by exists (String a pre), post.
  - intros (pre & post & ->). induction pre as [|a pre IH].
    + rewrite app_empty_l.
      destruct (needle +:+ post) eqn:E; cbn [Str.contains];
        rewrite <- E, startswith_app; reflexivity.
    + rewrite app_cons. cbn [Str.contains]. rewrite IH. apply orb_true_r.
Qed.

Lemma lcp_startswith (p s : string) :
  Str.startswith p s = true -> Str.lcp p s = p.
Proof.
  revert s. induction p as [|a p IH]; intros [|b s] Hs; try done.
  cbn [Str.startswith] in Hs. cbn [Str.lcp].
  destruct (Ascii.eqb a b); [|discriminate]. f_equal. by apply IH.
Qed.

Lemma split_ws_from_blank (tok a b : string) (c : ascii) :
  Str.isspace c = true ->
  Str.split_ws_from tok (a +:+ String c b) =
  Str.split_ws_from tok a ++ Str.split_ws_from "" b.
Proof.
  intros Hc. revert tok. induction a as [|x a IH]; intros tok.
  - rewrite app_empty_l. cbn [Str.split_ws_from]. by rewrite Hc.
  - rewrite app_cons. cbn [Str.split_ws_from].
    destruct (Str.isspace x); [|apply IH].
    rewrite IH. by rewrite (assoc_L (++)).
Qed.


End Text_facts.

(** ** Facts about the environment update *)

Lemma updated_env_lookup (os_environ update_env : gmap string string) (key : string) :
  updated_env os_environ update_env !! key =
  match update_env !! key with
  | Some value => Some value
  | None => os_environ !! key
  end.
Proof.
  unfold updated_env.
  apply (map_fold_weak_ind
           (fun r (m : gmap string string) =>
              r !! key = match m !! key with Some v => Some v | None => os_environ !! key end)).
  - by rewrite lookup_empty.
  - intros i x m r Hi IH. rewrite !lookup_insert.
    case_decide; [done|]. exact IH.
Qed.


(** ** Running the effect monad by hand *)

Ltac munfold :=
  unfold getcwd in *;
  unfold mbind, M_bind, mret, M_ret, raise, gets, modify,
         try_except, try_finally, log_call in *.

Ltac mcases :=
  repeat (first [ progress simplify_eq/= | case_match ]).

Lemma convert_pathlib_id (arr : list Word) : _convert_pathlib_instance_to_str arr = arr.
Proof. unfold _convert_pathlib_instance_to_str. apply list_fmap_id. Qed.

Lemma converted_args (shell_cmd : Args) :
  match shell_cmd with
  | ArgList l => ArgList (_convert_pathlib_instance_to_str l)
  | ArgStr s => ArgStr s
  end = shell_cmd.
Proof. destruct shell_cmd; [|done]. by rewrite convert_pathlib_id. Qed.

(** *** Frame rules *)

Section Frame.
Context {B : Type} (f : World -> B).

Lemma preserves_ret {A} (a : A) : preserves f (mret a).
Proof. by intros w. Qed.

Lemma preserves_raise {A} (e : Error) : preserves f (raise e : M A).
Proof. by intros w. Qed.

Lemma preserves_gets {A} (g : World -> A) : preserves f (gets g).
Proof. by intros w. Qed.

Lemma preserves_bind {A C} (m : M A) (k : A -> M C) :
  preserves f m -> (forall a, preserves f (k a)) -> preserves f (m ≫= k).
Proof.
  intros Hm Hk w. unfold mbind, M_bind. specialize (Hm w).
  destruct (m w) as [[a|e] w1]; cbn [snd] in *; [|done].
  by rewrite Hk.
Qed.

Lemma preserves_try_except {A} (body : M A) (handler : Error -> M A) :
  preserves f body -> (forall e, preserves f (handler e)) ->
  preserves f (try_except body handler).
Proof.
  intros Hm Hk w. unfold try_except. specialize (Hm w).
  destruct (body w) as [[a|e] w1]; cbn [snd] in *; [done|].
  by rewrite Hk.
Qed.

Lemma preserves_for_each {A} (l : list A) (body : A -> M unit) :
  (forall a, preserves f (body a)) -> preserves f (for_each l body).
Proof.
  intros Hb. induction l as [|a l IH]; cbn [for_each].
  - apply preserves_ret.
  - apply preserves_bind; [apply Hb|]. intros _. exact IH.
Qed.

Lemma preserves_log_call (logger : Logger) (lvl : Level) (msg : string) :
  log_free f -> preserves f (log_call logger lvl msg).
Proof.
  intros Hf w. unfold log_call. destruct (accepts logger lvl msg); cbn [snd]; [|done].
  apply Hf.
Qed.

Lemma preserves_if {A} (b : bool) (m1 m2 : M A) :
  preserves f m1 -> preserves f m2 -> preserves f (if b then m1 else m2).
Proof. by destruct b. Qed.

End Frame.

Lemma log_free_spawned : log_free spawned.
Proof. by intros lvl msg w. Qed.
Lemma log_free_files : log_free files.
Proof. by intros lvl msg w. Qed.
Lemma log_free_environ : log_free environ.
Proof. by intros lvl msg w. Qed.
Lemma log_free_cwd : log_free cwd.
Proof. by intros lvl msg w. Qed.

Create HintDb frame.

#[export] Hint Resolve preserves_ret preserves_raise preserves_gets preserves_log_call
  preserves_if log_free_spawned log_free_files log_free_environ log_free_cwd : frame.

Ltac frame :=
  repeat first
    [ apply preserves_bind; [|intros ?]
    | apply preserves_try_except; [|intros ?]
    | apply preserves_for_each; intros ?
    | solve [eauto with frame]
    | case_match ].

Lemma bind_world {A B C} (f : World -> B) (m : M A) (k : A -> M C) (w : World) :
  (forall a, preserves f (k a)) -> f ((m ≫= k) w).2 = f (m w).2.
Proof.
  intros Hk. unfold mbind, M_bind.
  destruct (m w) as [[a|e] w1]; cbn [snd]; [apply Hk|done].
Qed.

Lemma try_finally_run {A} (body : M A) (final : M unit) (w : World) :
  try_finally body final w =
  match final (body w).2 with
  | (Ok _, w'') => ((body w).1, w'')
  | (Raise e, w'') => (Raise e, w'')
  end.
Proof. unfold try_finally. by destruct (body w). Qed.

Lemma chdir_back (d : string) (w : World) :
  PosixPath.isabs d = true -> PosixPath.normpath d = d -> d ∈ dirs w ->
  chdir d w = (Ok tt, set_cwd d w).
Proof.
  intros Habs Hnorm Hdir. unfold chdir, PosixPath.abspath. rewrite Habs, Hnorm.
  assert (d ≠ "") as Hne by (intros ->; discriminate).
  by rewrite (bool_decide_eq_true_2 _ Hne), (bool_decide_eq_true_2 _ Hdir).
Qed.

(** ** The scoped working directory *)

(** C8, as amended. For every target directory and wrapped operation, the scope ends
    with the outcome of the operation (its value or its exception) and
    with the working directory that was current on entry, provided that
    directory, an absolute normalised path as [os.getcwd] gives, still
    exists when the scope ends. *)
Theorem working_directory_restores {A} (target_directory : string)
    (body : string -> M A) (w : World) :
  let scope := (chdir target_directory ;; body target_directory) w in
  PosixPath.isabs (cwd w) = true ->
  PosixPath.normpath (cwd w) = cwd w ->
  cwd w ∈ dirs scope.2 ->
  working_directory target_directory body w = (scope.1, set_cwd (cwd w) scope.2)
  /\ cwd (working_directory target_directory body w).2 = cwd w.
Proof.
  intros scope Habs Hnorm Hdir.
  assert (Hgo : working_directory target_directory body w =
                (scope.1, set_cwd (cwd w) scope.2)).
  { unfold working_directory.
    change (try_finally (chdir target_directory ;; body target_directory)
              (chdir (cwd w)) w = (scope.1, set_cwd (cwd w) scope.2)).
    rewrite try_finally_run. fold scope.
    by rewrite (chdir_back _ _ Habs Hnorm Hdir). }
  split; [exact Hgo|]. by rewrite Hgo.
Qed.

Lemma working_directory_restores_witness :
  cwd (working_directory "/tmp"
         (fun _ => raise (Exception_ "stop") : M unit) Sample.world).2 = "/home/build"
  /\ cwd (working_directory "/tmp"
         (fun _ => chdir "/opt" : M unit) Sample.world).2 = "/home/build".
Proof.
  split.
  - apply (working_directory_restores "/tmp"
             (fun _ => raise (Exception_ "stop") : M unit) Sample.world);
      vm_compute; reflexivity.
  - apply (working_directory_restores "/tmp"
             (fun _ => chdir "/opt" : M unit) Sample.world);
      vm_compute; reflexivity.
Defined.

(** ** The shell runner *)

Lemma list_to_set_pair (a b : string) : list_to_set [a; b] =@{gset string} {[ a; b ]}.
Proof. cbn [list_to_set]. by rewrite (right_id_L ∅ (∪)). Qed.

Section Shell_runner.
Context `{Host}.

Lemma log_subprocess_entry (self : ShellRunner) (p : CompletedProcess string) :
  _log_subprocess self p = log_call (_logger self) (log_entry p).1 (log_entry p).2.
Proof.
  unfold _log_subprocess, log_entry, cmd_returned.
  by destruct (bool_decide (returncode p = 0)).
Qed.

Lemma subprocess_run_world (sp : Spawn) (w : World) :
  (subprocess_run sp w).2 = add_spawn sp w.
Proof. unfold subprocess_run. by repeat case_match. Qed.

Lemma preserves_bytes_decode {B} (f : World -> B) (b : list Byte.byte) :
  preserves f (bytes_decode b).
Proof. unfold bytes_decode. frame. Qed.

Lemma preserves_log_subprocess {B} (f : World -> B) (self : ShellRunner)
    (p : CompletedProcess string) :
  log_free f -> preserves f (_log_subprocess self p).
Proof. intros Hf. unfold _log_subprocess. frame. Qed.

Lemma preserves_check_returncode {B} (f : World -> B) (p : CompletedProcess string) :
  preserves f (check_returncode p).
Proof. unfold check_returncode. frame. Qed.

Lemma preserves_check_subprocess_output {B} (f : World -> B)
    (output : CompletedProcess (list Byte.byte)) (logger : Logger) :
  log_free f -> preserves f (check_subprocess_output output logger).
Proof.
  intros Hf. unfold check_subprocess_output.
  apply preserves_bind; [apply preserves_bytes_decode|intros out].
  apply preserves_bind; [apply preserves_bytes_decode|intros err].
  frame.
Qed.

Hint Resolve preserves_bytes_decode preserves_log_subprocess
  preserves_check_returncode preserves_check_subprocess_output : frame.

(** What [ShellRunner.run] does once the child has finished in time with
    output that decodes: the entry is logged, and then the exit code and
    [ignore_errors] decide; a logger that raises on the entry ends the
    call there. *)
Lemma shell_runner_run_finished (self : ShellRunner) (shell_cmd : Args)
    (env : option (gmap string string)) (ignore_errors : bool)
    (timeout : option N) (shell : bool) (cwd_ : option string) (w : World)
    (out err : string) :
  let sp := mkSpawn shell_cmd shell cwd_ (default (environ w) env) timeout in
  let r := exec (spawned w) sp in
  let p := mkCompleted shell_cmd (exit_status r) out err in
  in_time timeout r = true ->
  decode (out_bytes r) = Some out ->
  decode (err_bytes r) = Some err ->
  ShellRunner_run self shell_cmd env ignore_errors timeout shell cwd_ w =
  if accepts (_logger self) (log_entry p).1 (log_entry p).2 then
    (if bool_decide (exit_status r ≠ 0) && negb ignore_errors
     then Raise (CalledProcessError (exit_status r) shell_cmd out err)
     else Ok p,
     add_log (log_entry p).1 (log_entry p).2 (add_spawn sp w))
  else (Raise (LoggingError (log_entry p).1 (log_entry p).2), add_spawn sp w).
Proof.
  intros sp r p Htime Hout Herr.
  unfold ShellRunner_run. rewrite converted_args.
  unfold mbind at 1, M_bind at 1, gets at 1.
  unfold mbind at 1, M_bind at 1, subprocess_run at 1.
  cbn [spawned add_spawn]. fold sp. fold r.
  assert (Hrun :
    match sp_timeout sp with
    | Some t =>
        if (t <? elapsed r)%N
        then (Raise (TimeoutExpired (sp_args sp) t), add_spawn sp w)
        else (Ok (mkCompleted (sp_args sp) (exit_status r) (out_bytes r) (err_bytes r)),
              add_spawn sp w)
    | None =>
        (Ok (mkCompleted (sp_args sp) (exit_status r) (out_bytes r) (err_bytes r)),
         add_spawn sp w)
    end = (Ok (mkCompleted shell_cmd (exit_status r) (out_bytes r) (err_bytes r)),
           add_spawn sp w)).
  { cbn [sp_timeout sp_args sp]. unfold in_time in Htime.
    destruct timeout as [t|]; [|done].
    by destruct (t <? elapsed r)%N. }
  rewrite Hrun. cbn [stdout stderr args returncode].
  unfold bytes_decode. rewrite Hout, Herr.
  cbv beta iota delta [mbind M_bind mret M_ret].
  rewrite log_subprocess_entry. fold p.
  unfold check_returncode. munfold.
  destruct (accepts (_logger self) (log_entry p).1 (log_entry p).2); [|done].
  cbn [returncode p].
  destruct (bool_decide (exit_status r ≠ 0)), ignore_errors; reflexivity.
Qed.

(** Whatever happens afterwards, [ShellRunner.run] starts exactly one
    child, with the environment it was given, or the current one when it
    was given none. *)
Lemma shell_runner_spawns_once (self : ShellRunner) (shell_cmd : Args)
    (env : option (gmap string string)) (ignore_errors : bool)
    (timeout : option N) (shell : bool) (cwd_ : option string) (w : World) :
  spawned (ShellRunner_run self shell_cmd env ignore_errors timeout shell cwd_ w).2 =
  spawned w ++ [mkSpawn shell_cmd shell cwd_ (default (environ w) env) timeout].
Proof.
  unfold ShellRunner_run. rewrite converted_args.
  unfold mbind at 1, M_bind at 1, gets at 1.
  rewrite bind_world; [by rewrite subprocess_run_world|].
  intros p. frame.
Qed.

(** [run_subprocess] starts exactly one child too, with the updated copy
    of the current environment. *)
Lemma run_subprocess_spawns_once (command_line : string) (logger : Logger)
    (check_output : bool) (cwd_ : option string) (shell : bool)
    (update_env : option (gmap string string)) (w : World) :
  spawned (run_subprocess command_line logger check_output cwd_ shell update_env w).2 =
  spawned w ++
  [mkSpawn (if shell then ArgStr command_line
            else ArgList (WStr <$> Str.split_ws command_line))
     shell cwd_ (updated_env (environ w) (default ∅ update_env)) None].
Proof.
  unfold run_subprocess.
  unfold mbind at 1, M_bind at 1, gets at 1.
  rewrite bind_world; [by destruct shell; rewrite subprocess_run_world|].
  intros output. frame.
Qed.

Lemma preserves_subprocess_run {B} (f : World -> B) (sp : Spawn) :
  spawn_free f -> preserves f (subprocess_run sp).
Proof. intros Hf w. rewrite subprocess_run_world. apply Hf. Qed.

Lemma preserves_run_subprocess {B} (f : World -> B) (command_line : string)
    (logger : Logger) (check_output : bool) (cwd_ : option string) (shell : bool)
    (update_env : option (gmap string string)) :
  log_free f -> spawn_free f ->
  preserves f (run_subprocess command_line logger check_output cwd_ shell update_env).
Proof.
  intros Hlog Hspawn. unfold run_subprocess.
  apply preserves_bind; [apply preserves_gets|intros env].
  apply preserves_bind; [destruct shell; by apply preserves_subprocess_run|intros output].
  frame.
Qed.

(** C2, as amended. [ShellRunner.run] hands its [env] mapping to the
    child as the whole environment (and the current environment when it
    is given none); it is [run_subprocess] that merges: there the child
    has the current environment with the [update_env] entries on top. *)
Theorem child_environment (self : ShellRunner) (shell_cmd : Args)
    (env : gmap string string) (ignore_errors : bool) (timeout : option N)
    (shell : bool) (cwd_ : option string)
    (command_line : string) (logger : Logger) (check_output : bool)
    (update_env : option (gmap string string)) (w : World) :
  (exists sp,
      spawned (ShellRunner_run self shell_cmd (Some env) ignore_errors timeout
                 shell cwd_ w).2 = spawned w ++ [sp]
      /\ sp_env sp = env)
  /\ (exists sp,
      spawned (ShellRunner_run self shell_cmd None ignore_errors timeout
                 shell cwd_ w).2 = spawned w ++ [sp]
      /\ sp_env sp = environ w)
  /\ (exists sp,
      spawned (run_subprocess command_line logger check_output cwd_ shell
                 update_env w).2 = spawned w ++ [sp]
      /\ merged_on_top (environ w) (default ∅ update_env) (sp_env sp)).
Proof.
  split; [|split].
  - eexists. split; [apply shell_runner_spawns_once|reflexivity].
  - eexists. split; [apply shell_runner_spawns_once|reflexivity].
  - eexists. split; [apply run_subprocess_spawns_once|].
    intros key. cbn [sp_env]. apply updated_env_lookup.
Qed.

(** C3, on [ShellRunner.run]. When the logger raises on the entry of a
    finished command, the error leaves [run]: the call ends with the
    logger's exception, whatever the exit code and [ignore_errors], and
    no record at all has been logged in its place. *)
Theorem shell_runner_logging_error_propagates (self : ShellRunner) (shell_cmd : Args)
    (env : option (gmap string string)) (ignore_errors : bool)
    (timeout : option N) (shell : bool) (cwd_ : option string) (w : World)
    (out err : string) :
  let sp := mkSpawn shell_cmd shell cwd_ (default (environ w) env) timeout in
  let r := exec (spawned w) sp in
  let p := mkCompleted shell_cmd (exit_status r) out err in
  in_time timeout r = true ->
  decode (out_bytes r) = Some out ->
  decode (err_bytes r) = Some err ->
  accepts (_logger self) (log_entry p).1 (log_entry p).2 = false ->
  ShellRunner_run self shell_cmd env ignore_errors timeout shell cwd_ w =
    (Raise (LoggingError (log_entry p).1 (log_entry p).2), add_spawn sp w)
  /\ log (ShellRunner_run self shell_cmd env ignore_errors timeout shell cwd_ w).2 = log w.
Proof.
  intros sp r p Htime Hout Herr Hrej.
  rewrite (shell_runner_run_finished self shell_cmd env ignore_errors timeout
             shell cwd_ w out err Htime Hout Herr).
  fold sp r p. by rewrite Hrej.
Qed.

(** The sibling path: [check_subprocess_output] catches the logger's
    exception on the entry and logs two fallback records; the exit code
    alone then decides between returning and raising. *)
Lemma check_subprocess_output_swallows
    (output : CompletedProcess (list Byte.byte)) (logger : Logger) (w : World)
    (out err : string) :
  let cmd := joined_args (args output) in
  let head := cmd_returned cmd (returncode output) in
  let with_out :=
    if bool_decide (out ≠ "")
    then head +:+ (head +:+ "STDOUT was:" +:+ nl +:+ out +:+ nl) else head in
  let message :=
    if bool_decide (err ≠ "")
    then with_out +:+ (with_out +:+ "STDERR was:" +:+ nl +:+ err +:+ nl) else with_out in
  let entry :=
    if bool_decide (returncode output = 0) then (DEBUG, message)
    else (ERROR, "An error occurred when running a sub-process: " +:+ message) in
  let first_fallback := if bool_decide (returncode output = 0) then WARNING else ERROR in
  let second_fallback := if bool_decide (returncode output = 0) then DEBUG else ERROR in
  decode (stdout output) = Some out ->
  decode (stderr output) = Some err ->
  accepts logger entry.1 entry.2 = false ->
  accepts logger first_fallback
    "An error occurred when trying to logging the output date" = true ->
  accepts logger second_fallback
    ("Encoded log message:" +:+ nl +:+ encoded_repr message) = true ->
  check_subprocess_output output logger w =
    (if bool_decide (returncode output = 0) then Ok tt
     else Raise (CalledProcessError (returncode output) (ArgStr cmd) out err),
     add_log second_fallback ("Encoded log message:" +:+ nl +:+ encoded_repr message)
       (add_log first_fallback
          "An error occurred when trying to logging the output date" w)).
Proof.
  intros cmd head with_out message entry f1 f2 Hout Herr Hrej Hf1 Hf2.
  unfold check_subprocess_output, bytes_decode. rewrite Hout, Herr.
  cbv beta iota delta [mbind M_bind mret M_ret].
  fold cmd head with_out message.
  subst entry f1 f2.
  destruct (bool_decide (returncode output = 0)); cbn [fst snd] in *;
    munfold; rewrite Hrej, Hf1; cbn [add_log log]; rewrite Hf2; reflexivity.
Qed.

(** C4, as amended. Once the child has finished (in time, with output that decodes)
    and its entry is logged, [ShellRunner.run] raises exactly when the
    exit code is not zero and [ignore_errors] is false, and the exception
    is the [CalledProcessError] carrying the command, the exit code and
    both decoded streams; in every other case it returns the completed
    process, which carries that exit code. *)
Theorem shell_runner_run_raises_iff (self : ShellRunner) (shell_cmd : Args)
    (env : option (gmap string string)) (ignore_errors : bool)
    (timeout : option N) (shell : bool) (cwd_ : option string) (w : World)
    (out err : string) :
  let sp := mkSpawn shell_cmd shell cwd_ (default (environ w) env) timeout in
  let r := exec (spawned w) sp in
  let p := mkCompleted shell_cmd (exit_status r) out err in
  let res := ShellRunner_run self shell_cmd env ignore_errors timeout shell cwd_ w in
  in_time timeout r = true ->
  decode (out_bytes r) = Some out ->
  decode (err_bytes r) = Some err ->
  accepts (_logger self) (log_entry p).1 (log_entry p).2 = true ->
  ((exists e, res.1 = Raise e) <-> (exit_status r ≠ 0 /\ ignore_errors = false))
  /\ (forall e, res.1 = Raise e ->
        e = CalledProcessError (exit_status r) shell_cmd out err)
  /\ (~ (exit_status r ≠ 0 /\ ignore_errors = false) ->
        res.1 = Ok p /\ returncode p = exit_status r).
Proof.
  intros sp r p res Htime Hout Herr Hacc. subst res.
  rewrite (shell_runner_run_finished self shell_cmd env ignore_errors timeout
             shell cwd_ w out err Htime Hout Herr).
  fold sp r p. rewrite Hacc. cbn [fst].
  destruct (decide (exit_status r = 0)) as [Hz|Hnz].
  - rewrite (bool_decide_eq_false_2 (exit_status r ≠ 0)) by (intros Hn; by apply Hn).
    cbn [andb]. split; [|split].
    + split; [intros [e He]; discriminate|intros [Hn _]; by destruct Hn].
    + intros e He; discriminate.
    + done.
  - rewrite (bool_decide_eq_true_2 (exit_status r ≠ 0)) by done.
    destruct ignore_errors; cbn [andb negb]; (split; [|split]).
    + split; [intros [e He]; discriminate|intros [_ Hi]; discriminate].
    + intros e He; discriminate.
    + done.
    + split; [done|]. intros _. by eexists.
    + intros e He. by simplify_eq.
    + intros Hno. destruct Hno. done.
Qed.

(** C5. For each architecture the packages computed are exactly the two
    of the table, and one command is started, in shell mode, that lists
    them all after [sudo apt-get install -y]. *)
Theorem install_compilers_apt_packages_table (arch : Arch) (w : World) :
  list_to_set (apt_packages arch) = package_table arch
  /\ length (apt_packages arch) = 2%nat
  /\ spawned (install_compilers_apt_packages arch w).2 =
     spawned w ++
     [mkSpawn (ArgStr ("sudo apt-get install -y " +:+ Str.join " " (apt_packages arch)))
        true None (environ w) None]
  /\ Str.split_ws ("sudo apt-get install -y " +:+ Str.join " " (apt_packages arch)) =
     ["sudo"; "apt-get"; "install"; "-y"] ++ apt_packages arch.
Proof.
  split; [|split; [|split]].
  - destruct arch; apply list_to_set_pair.
  - by destruct arch.
  - unfold install_compilers_apt_packages.
    unfold mbind at 1, M_bind at 1.
    pose proof (shell_runner_spawns_once (ShellRunner_init None)
      (ArgStr ("sudo apt-get install -y " +:+ Str.join " " (apt_packages arch)))
      None false None true None w) as Hs.
    destruct (ShellRunner_run _ _ _ _ _ _ _ w) as [[?|?] w']; exact Hs.
  - by destruct arch.
Qed.

End Shell_runner.

(** C2, as stated, fails: a child started through [ShellRunner.run] with
    the overrides [CC=gcc] does not see the [PATH] of the current
    environment. *)
Lemma shell_runner_env_not_merged :
  ~ (forall sp,
       last (spawned (ShellRunner_run (H:=Sample.host) (ShellRunner_init (H:=Sample.host) None)
                        (ArgStr "make") (Some {[ "CC" := "gcc" ]}) false None true None
                        Sample.world).2) = Some sp ->
       merged_on_top (environ Sample.world) {[ "CC" := "gcc" ]} (sp_env sp)).
Proof.
  intros Hclaim.
  specialize (Hclaim _ eq_refl "PATH").
  vm_compute in Hclaim. discriminate.
Qed.

Lemma shell_runner_logging_error_propagates_witness :
  let res := ShellRunner_run (H:=Sample.fragile_host)
               (ShellRunner_init (H:=Sample.fragile_host) None)
               (ArgStr "make") None false None true None Sample.world in
  res.1 = Raise (LoggingError DEBUG
                   ("CMD <m a k e> RETURNED <0>." +:+ nl +:+
                    "STDOUT was:" +:+ nl +:+ "done" +:+ nl))
  /\ log res.2 = [].
Proof.
  destruct (shell_runner_logging_error_propagates (H:=Sample.fragile_host)
              (ShellRunner_init (H:=Sample.fragile_host) None)
              (ArgStr "make") None false None true None Sample.world "done" ""
              eq_refl eq_refl eq_refl eq_refl) as [Hres Hlog].
  split; [by rewrite Hres|exact Hlog].
Defined.

Lemma shell_runner_run_raises_iff_witness :
  (ShellRunner_run (H:=Sample.host) (ShellRunner_init (H:=Sample.host) None)
     (ArgStr "make fail") None false None true None Sample.world).1
  = Raise (CalledProcessError 1 (ArgStr "make fail") "" "boom").
Proof.
  destruct (shell_runner_run_raises_iff (H:=Sample.host) (ShellRunner_init (H:=Sample.host) None)
              (ArgStr "make fail") None false None true None Sample.world "" "boom"
              eq_refl eq_refl eq_refl eq_refl) as (Hiff & Hexc & _).
  destruct Hiff as [_ Hraise].
  destruct Hraise as [e He]; [split; [vm_compute; discriminate|reflexivity]|].
  rewrite He. f_equal. exact (Hexc e He).
Defined.

(** ** The archive *)

Section Archive.
Context `{Host}.

Lemma is_within_directory_run (directory target : string) (w : World) :
  is_within_directory directory target w = (Ok (within (cwd w) directory target), w).
Proof. reflexivity. Qed.

(** The guard loop of [safe_extract] reads the world and leaves it as it
    is; it raises as soon as one member fails the test. *)
Lemma guard_loop_run (tar : list TarInfo) (path : string) (w : World) :
  for_each tar (fun member =>
    let member_path := PosixPath.join path (name member) in
    within ← is_within_directory path member_path;
    if negb within then raise (Exception_ "Attempted Path Traversal in Tar File")
    else mret tt) w =
  (if forallb (fun member => within (cwd w) path (PosixPath.join path (name member))) tar
   then Ok tt else Raise (Exception_ "Attempted Path Traversal in Tar File"), w).
Proof.
  induction tar as [|member tar IH]; [reflexivity|].
  cbn [for_each forallb].
  unfold mbind at 1, M_bind at 1. unfold mbind at 1, M_bind at 1.
  rewrite is_within_directory_run.
  destruct (within (cwd w) path (PosixPath.join path (name member))); cbn [negb andb].
  - unfold mret, M_ret. exact IH.
  - reflexivity.
Qed.

Lemma safe_extract_run (tar : list TarInfo) (path : string) (w : World) :
  safe_extract tar path w =
  if forallb (fun member => within (cwd w) path (PosixPath.join path (name member))) tar
  then extractall tar path w
  else (Raise (Exception_ "Attempted Path Traversal in Tar File"), w).
Proof.
  unfold safe_extract. unfold mbind at 1, M_bind at 1.
  rewrite guard_loop_run. by destruct (forallb _ tar).
Qed.

(** The operation, step by step: the opening record, the discovery, the
    guard, the extraction, and then the installation loop. *)
Lemma extract_and_install_toolchain_run (tar_path : Pathlib.Path)
    (tar_file : list TarInfo) (dir : string) (logger : Logger) (w : World) :
  extract_and_install_toolchain tar_path tar_file dir logger w =
  if accepts logger INFO "extracting toolchain" then
    let w1 := add_log INFO "extracting toolchain" w in
    match toolchain_installers_of tar_path tar_file with
    | [] => (Raise (FileNotFoundError "No toolchain installer found"), w1)
    | installers =>
        if forallb (member_within (cwd w) tar_path) tar_file then
          match extractall tar_file (tar_dir_of tar_path) w1 with
          | (Ok _, w2) =>
              (log_call logger INFO "installing toolchain" ;;
               for_each installers (install_one dir logger)) w2
          | (Raise e, w2) => (Raise e, w2)
          end
        else (Raise (Exception_ "Attempted Path Traversal in Tar File"), w1)
    end
  else (Raise (LoggingError INFO "extracting toolchain"), w).
Proof.
  unfold extract_and_install_toolchain.
  unfold mbind at 1, M_bind at 1, log_call at 1.
  destruct (accepts logger INFO "extracting toolchain"); [|reflexivity].
  cbv zeta. unfold mbind at 1, M_bind at 1.
  destruct (toolchain_installers_of tar_path tar_file) as [|inst insts] eqn:Hinst.
  - reflexivity.
  - rewrite bool_decide_eq_false_2 by (cbn [length]; lia).
    unfold mbind at 1, M_bind at 1. rewrite safe_extract_run.
    fold (tar_dir_of tar_path). unfold member_within. cbn [cwd add_log].
    destruct (forallb _ tar_file); [|done].
    by destruct (extractall tar_file (tar_dir_of tar_path) _) as [[[]|e] w2].
Qed.

Lemma no_candidate (tar_path : Pathlib.Path) (tar_file : list TarInfo) :
  Forall (fun member => is_installer member = false) tar_file ->
  toolchain_installers_of tar_path tar_file = [].
Proof.
  intros Hall. unfold toolchain_installers_of.
  induction Hall as [|member tar Hm _ IH]; [reflexivity|].
  rewrite filter_cons_False by (rewrite Hm; discriminate). exact IH.
Qed.

Lemma some_candidate (tar_path : Pathlib.Path) (tar_file : list TarInfo) :
  Exists (fun member => is_installer member = true) tar_file ->
  toolchain_installers_of tar_path tar_file <> [].
Proof.
  intros Hex. unfold toolchain_installers_of.
  induction Hex as [member tar Hm|member tar _ IH].
  - by rewrite filter_cons_True.
  - destruct (decide (is_installer member = true)).
    + by rewrite filter_cons_True.
    + by rewrite filter_cons_False.
Qed.

Lemma guard_fails (cwd_ : string) (tar_path : Pathlib.Path) (tar_file : list TarInfo) :
  Exists (fun member => member_within cwd_ tar_path member = false) tar_file ->
  forallb (member_within cwd_ tar_path) tar_file = false.
Proof.
  intros Hex. induction Hex as [member tar Hm|member tar _ IH]; cbn [forallb].
  - by rewrite Hm.
  - rewrite IH. apply andb_false_r.
Qed.

(** A path below the root passes the test of [is_within_directory]; so a
    path that fails it is outside the root. *)
Lemma within_of_descends (cwd_ directory target : string) :
  descends_from (PosixPath.abspath cwd_ directory) (PosixPath.abspath cwd_ target) = true ->
  within cwd_ directory target = true.
Proof.
  unfold descends_from, within, PosixPath.commonprefix. cbn [fold_left].
  set (d := PosixPath.abspath cwd_ directory).
  set (t := PosixPath.abspath cwd_ target).
  intros Hd. apply bool_decide_eq_true_2, lcp_startswith.
  apply orb_true_iff in Hd as [Heq|Hpre].
  - apply bool_decide_eq_true_1 in Heq as ->.
    rewrite <- (app_empty_r_str d) at 2. apply startswith_app.
  - destruct (Str.endswith "/" d); [done|]. by apply startswith_app_l in Hpre.
Qed.

(** C7. When no member name contains the installer marker, the operation
    fails with the not-found error (the logger having taken the opening
    record); and of the two members [install.sh] and [readme.txt], in
    either order, [install.sh] alone is a candidate. *)
Theorem no_installer_raises (tar_path : Pathlib.Path) (tar_file : list TarInfo)
    (dir : string) (logger : Logger) (w : World) :
  accepts logger INFO "extracting toolchain" = true ->
  Forall (fun member => is_installer member = false) tar_file ->
  (extract_and_install_toolchain tar_path tar_file dir logger w).1
    = Raise (FileNotFoundError "No toolchain installer found")
  /\ toolchain_installers_of tar_path [mkTarInfo "install.sh"; mkTarInfo "readme.txt"]
     = [Pathlib.div (Pathlib.parent tar_path) (Pathlib.of_string "install.sh")]
  /\ toolchain_installers_of tar_path [mkTarInfo "readme.txt"; mkTarInfo "install.sh"]
     = [Pathlib.div (Pathlib.parent tar_path) (Pathlib.of_string "install.sh")].
Proof.
  intros Hlog Hall. split; [|split; reflexivity].
  rewrite extract_and_install_toolchain_run, Hlog. cbv zeta.
  by rewrite no_candidate.
Qed.

(** C9. When no member name contains the installer marker, the operation
    raises and nothing has been extracted or started: the discovery reads
    the member list of the archive, ahead of the guard and the
    extraction, and the world is left as it was but for the opening log
    record. *)
Theorem no_installer_leaves_files (tar_path : Pathlib.Path) (tar_file : list TarInfo)
    (dir : string) (logger : Logger) (w : World) :
  Forall (fun member => is_installer member = false) tar_file ->
  let res := extract_and_install_toolchain tar_path tar_file dir logger w in
  (exists e, res.1 = Raise e)
  /\ files res.2 = files w
  /\ spawned res.2 = spawned w
  /\ (res.2 = w \/ res.2 = add_log INFO "extracting toolchain" w).
Proof.
  intros Hall res. subst res.
  rewrite extract_and_install_toolchain_run. cbv zeta.
  rewrite no_candidate by done.
  destruct (accepts logger INFO "extracting toolchain"); cbn [fst snd];
    (split; [by eexists|]); auto.
Qed.

(** C10. A member is a candidate exactly when [.sh] occurs somewhere in
    its name, and the candidates are the paths built from such members;
    [notes.shop.txt], which does not end in [.sh], is one, and it is run
    as an installer. *)
Theorem installer_marker_anywhere :
  (forall member,
      is_installer member = true <->
      exists pre post, name member = pre +:+ ".sh" +:+ post)
  /\ (forall tar_path tar_file candidate,
      candidate ∈ toolchain_installers_of tar_path tar_file <->
      exists member,
        member ∈ tar_file
        /\ (exists pre post, name member = pre +:+ ".sh" +:+ post)
        /\ candidate = Pathlib.div (Pathlib.parent tar_path)
                         (Pathlib.of_string (name member)))
  /\ Str.endswith ".sh" "notes.shop.txt" = false
  /\ is_installer (mkTarInfo "notes.shop.txt") = true
  /\ sp_args <$> spawned (extract_and_install_toolchain (H:=Sample.host) Sample.tar_path
                            [mkTarInfo "notes.shop.txt"] "/usr/local/tc"
                            Sample.steady_logger Sample.world).2
     = [ArgList [WStr "/opt/dl/notes.shop.txt"; WStr "-d"; WStr "/usr/local/tc"; WStr "-y"]].
Proof.
  split; [|split; [|split; [|split]]].
  - intros member. apply contains_spec.
  - intros tar_path tar_file candidate. unfold toolchain_installers_of.
    rewrite list_elem_of_fmap. split.
    + intros (member & -> & Hin). apply list_elem_of_filter in Hin as [Hm Hin].
      exists member. split; [done|]. split; [|done]. by apply contains_spec.
    + intros (member & Hin & Hm & ->). exists member. split; [done|].
      apply list_elem_of_filter. split; [|done]. by apply contains_spec.
  - reflexivity.
  - reflexivity.
  - vm_compute. reflexivity.
Qed.

(** C1, as amended. When the archive has an installer candidate and the
    logger takes the opening record, a member whose path, joined to the
    extraction root and made absolute, does not start with the absolute
    root makes the operation raise the path-traversal error with nothing
    extracted and nothing started; and such a member does fall outside
    the root. *)
Theorem traversal_guard (tar_path : Pathlib.Path) (tar_file : list TarInfo)
    (dir : string) (logger : Logger) (w : World) :
  accepts logger INFO "extracting toolchain" = true ->
  Exists (fun member => is_installer member = true) tar_file ->
  Exists (fun member => member_within (cwd w) tar_path member = false) tar_file ->
  let res := extract_and_install_toolchain tar_path tar_file dir logger w in
  res.1 = Raise (Exception_ "Attempted Path Traversal in Tar File")
  /\ files res.2 = files w
  /\ spawned res.2 = spawned w
  /\ (forall member,
        member_within (cwd w) tar_path member = false ->
        falls_outside (cwd w) (tar_dir_of tar_path)
          (PosixPath.join (tar_dir_of tar_path) (name member))).
Proof.
  intros Hlog Hinst Hout res. subst res.
  rewrite extract_and_install_toolchain_run, Hlog. cbv zeta.
  pose proof (some_candidate tar_path tar_file Hinst) as Hne.
  destruct (toolchain_installers_of tar_path tar_file) as [|inst insts]; [done|].
  rewrite guard_fails by done. cbn [fst snd].
  split; [done|]. split; [done|]. split; [done|].
  intros member Hm. unfold falls_outside, member_within in *.
  destruct (descends_from _ _) eqn:Hd; [|done].
  apply within_of_descends in Hd. congruence.
Qed.

(** *** The installation loop *)






Lemma forallb_of_Forall {A} (test : A -> bool) (l : list A) :
  Forall (fun a => test a = true) l -> forallb test l = true.
Proof. induction 1 as [|a l Ha _ IH]; [done|]. cbn. by rewrite Ha, IH. Qed.

End Archive.

Lemma no_installer_raises_witness :
  (extract_and_install_toolchain (H:=Sample.host) Sample.tar_path
     [mkTarInfo "readme.txt"; mkTarInfo "sdk/env"] "/usr/local/tc"
     Sample.steady_logger Sample.world).1
  = Raise (FileNotFoundError "No toolchain installer found").
Proof.
  apply (no_installer_raises (H:=Sample.host) Sample.tar_path
           [mkTarInfo "readme.txt"; mkTarInfo "sdk/env"] "/usr/local/tc"
           Sample.steady_logger Sample.world).
  - reflexivity.
  - repeat constructor.
Defined.

Lemma no_installer_leaves_files_witness :
  files (extract_and_install_toolchain (H:=Sample.host) Sample.tar_path
           [mkTarInfo "readme.txt"; mkTarInfo "../../etc/passwd"] "/usr/local/tc"
           Sample.steady_logger Sample.world).2 = [].
Proof.
  apply (no_installer_leaves_files (H:=Sample.host) Sample.tar_path
           [mkTarInfo "readme.txt"; mkTarInfo "../../etc/passwd"] "/usr/local/tc"
           Sample.steady_logger Sample.world).
  repeat constructor.
Defined.

Lemma traversal_guard_witness :
  let res := extract_and_install_toolchain (H:=Sample.host) Sample.tar_path
               [mkTarInfo "install.sh"; mkTarInfo "../../etc/passwd"] "/usr/local/tc"
               Sample.steady_logger Sample.world in
  res.1 = Raise (Exception_ "Attempted Path Traversal in Tar File") /\ files res.2 = [].
Proof.
  destruct (traversal_guard (H:=Sample.host) Sample.tar_path
              [mkTarInfo "install.sh"; mkTarInfo "../../etc/passwd"] "/usr/local/tc"
              Sample.steady_logger Sample.world) as (Hres & Hfiles & _).
  - reflexivity.
  - apply Exists_cons_hd. reflexivity.
  - apply Exists_cons_tl, Exists_cons_hd. vm_compute. reflexivity.
  - split; [exact Hres|exact Hfiles].
Defined.

(** C1, as stated, fails: the only member of this archive resolves to
    [/etc/passwd], outside the root [/opt/dl], and the operation ends with
    the not-found error of the discovery, not with the path-traversal
    error. *)
Lemma traversal_without_installer_not_reported :
  let tar_file := [mkTarInfo "../../etc/passwd"] in
  let res := extract_and_install_toolchain (H:=Sample.host) Sample.tar_path tar_file
               "/usr/local/tc" Sample.steady_logger Sample.world in
  ~ ((exists member,
         member ∈ tar_file /\
         falls_outside (cwd Sample.world) (tar_dir_of Sample.tar_path)
           (PosixPath.join (tar_dir_of Sample.tar_path) (name member))) ->
     res.1 = Raise (Exception_ "Attempted Path Traversal in Tar File")
     /\ files res.2 = files Sample.world).
Proof.
  intros tar_file res Hclaim.
  destruct Hclaim as [Hres _].
  - exists (mkTarInfo "../../etc/passwd"). split; [apply list_elem_of_here|].
    vm_compute. reflexivity.
  - vm_compute in Hres. discriminate.
Qed.

(** The test of [is_within_directory] compares characters, not path
    components: a member that resolves into a sibling directory whose name
    extends that of the root passes it, and is extracted. *)
Example sibling_directory_passes_guard :
  let tar_file := [mkTarInfo "install.sh"; mkTarInfo "../dlx/evil"] in
  let res := extract_and_install_toolchain (H:=Sample.host) Sample.tar_path tar_file
               "/usr/local/tc" Sample.steady_logger Sample.world in
  falls_outside (cwd Sample.world) (tar_dir_of Sample.tar_path)
    (PosixPath.join (tar_dir_of Sample.tar_path) "../dlx/evil")
  /\ PosixPath.abspath (cwd Sample.world)
       (PosixPath.join (tar_dir_of Sample.tar_path) "../dlx/evil") = "/opt/dlx/evil"
  /\ res.1 = Ok tt
  /\ files res.2 = ["/opt/dl/install.sh"; "/opt/dl/../dlx/evil"].
Proof. vm_compute. repeat split; reflexivity. Qed.




(** * Further properties of the module *)

(** ** The shell runner, case by case *)

Section Shell_runner_cases.
Context `{Host}.

#[local] Hint Resolve preserves_bytes_decode preserves_log_subprocess
  preserves_check_returncode preserves_check_subprocess_output
  preserves_subprocess_run preserves_run_subprocess : frame.

(** Every way [ShellRunner.run] can go: the child runs over its timeout,
    or a stream does not decode, or the entry is logged (or the logger
    raises on it) and the exit code decides. *)
Lemma shell_runner_run_cases (self : ShellRunner) (shell_cmd : Args)
    (env : option (gmap string string)) (ignore_errors : bool)
    (timeout : option N) (shell : bool) (cwd_ : option string) (w : World) :
  let sp := mkSpawn shell_cmd shell cwd_ (default (environ w) env) timeout in
  let r := exec (spawned w) sp in
  ShellRunner_run self shell_cmd env ignore_errors timeout shell cwd_ w =
  if in_time timeout r then
    match decode (out_bytes r), decode (err_bytes r) with
    | Some out, Some err =>
        let p := mkCompleted shell_cmd (exit_status r) out err in
        if accepts (_logger self) (log_entry p).1 (log_entry p).2 then
          (if bool_decide (exit_status r ≠ 0) && negb ignore_errors
           then Raise (CalledProcessError (exit_status r) shell_cmd out err)
           else Ok p,
           add_log (log_entry p).1 (log_entry p).2 (add_spawn sp w))
        else (Raise (LoggingError (log_entry p).1 (log_entry p).2), add_spawn sp w)
    | _, _ => (Raise UnicodeDecodeError, add_spawn sp w)
    end
  else (Raise (TimeoutExpired shell_cmd (default 0%N timeout)), add_spawn sp w).
Proof.
  intros sp r.
  destruct (in_time timeout r) eqn:Htime.
  - destruct (decode (out_bytes r)) as [out|] eqn:Hout.
    + destruct (decode (err_bytes r)) as [err|] eqn:Herr.
      * by apply shell_runner_run_finished.
      * unfold ShellRunner_run. rewrite converted_args.
        unfold mbind at 1, M_bind at 1, gets at 1.
        unfold mbind at 1, M_bind at 1, subprocess_run at 1.
        cbn [spawned add_spawn sp_timeout sp_args]. fold sp r.
        unfold in_time in Htime.
        destruct timeout as [t|];
          [destruct (t <? elapsed r)%N; [discriminate|]|];
          cbn [stdout stderr]; unfold bytes_decode; rewrite Hout, Herr; reflexivity.
    + unfold ShellRunner_run. rewrite converted_args.
      unfold mbind at 1, M_bind at 1, gets at 1.
      unfold mbind at 1, M_bind at 1, subprocess_run at 1.
      cbn [spawned add_spawn sp_timeout sp_args]. fold sp r.
      unfold in_time in Htime.
      destruct timeout as [t|];
        [destruct (t <? elapsed r)%N; [discriminate|]|];
        cbn [stdout stderr]; unfold bytes_decode; rewrite Hout; reflexivity.
  - unfold ShellRunner_run. rewrite converted_args.
    unfold mbind at 1, M_bind at 1, gets at 1.
    unfold mbind at 1, M_bind at 1, subprocess_run at 1.
    cbn [spawned add_spawn sp_timeout sp_args]. fold sp r.
    unfold in_time in Htime. destruct timeout as [t|]; [|discriminate].
    destruct (t <? elapsed r)%N; [reflexivity|discriminate].
Qed.

(** X1. A child that runs longer than the timeout makes [ShellRunner.run]
    raise [TimeoutExpired] with the command and the timeout: the child has
    been started, nothing is decoded and nothing is logged, whatever
    [ignore_errors] says. *)
Theorem shell_runner_timeout_expires (self : ShellRunner) (shell_cmd : Args)
    (env : option (gmap string string)) (ignore_errors : bool)
    (t : N) (shell : bool) (cwd_ : option string) (w : World) :
  let sp := mkSpawn shell_cmd shell cwd_ (default (environ w) env) (Some t) in
  (t < elapsed (exec (spawned w) sp))%N ->
  ShellRunner_run self shell_cmd env ignore_errors (Some t) shell cwd_ w =
    (Raise (TimeoutExpired shell_cmd t), add_spawn sp w)
  /\ log (ShellRunner_run self shell_cmd env ignore_errors (Some t) shell cwd_ w).2 = log w.
Proof.
  intros sp Hlate. rewrite shell_runner_run_cases. fold sp.
  cbn [in_time default]. apply N.ltb_lt in Hlate. rewrite Hlate. done.
Qed.

(** X2. When the child ends in time but one of its streams does not
    decode, [ShellRunner.run] raises the decoding error: no record is
    logged and the exit code is not looked at, even with [ignore_errors]
    set. *)
Theorem shell_runner_undecodable_output (self : ShellRunner) (shell_cmd : Args)
    (env : option (gmap string string)) (ignore_errors : bool)
    (timeout : option N) (shell : bool) (cwd_ : option string) (w : World) :
  let sp := mkSpawn shell_cmd shell cwd_ (default (environ w) env) timeout in
  let r := exec (spawned w) sp in
  in_time timeout r = true ->
  decode (out_bytes r) = None \/ decode (err_bytes r) = None ->
  ShellRunner_run self shell_cmd env ignore_errors timeout shell cwd_ w =
    (Raise UnicodeDecodeError, add_spawn sp w)
  /\ log (ShellRunner_run self shell_cmd env ignore_errors timeout shell cwd_ w).2 = log w.
Proof.
  intros sp r Htime Hbad. rewrite shell_runner_run_cases. fold sp r. rewrite Htime.
  destruct Hbad as [-> | ->]; [done|]. by destruct (decode (out_bytes r)).
Qed.

(** X3. With [ignore_errors] set, [ShellRunner.run] never raises
    [CalledProcessError]; and whenever it returns, with or without
    [ignore_errors], the result carries the command as given, the child's
    exit code and both streams decoded, and exactly one record has been
    logged, at level debug for exit code zero and error otherwise. *)
Theorem shell_runner_ignore_errors (self : ShellRunner) (shell_cmd : Args)
    (env : option (gmap string string)) (ignore_errors : bool)
    (timeout : option N) (shell : bool) (cwd_ : option string) (w : World) :
  let sp := mkSpawn shell_cmd shell cwd_ (default (environ w) env) timeout in
  let r := exec (spawned w) sp in
  let res := ShellRunner_run self shell_cmd env ignore_errors timeout shell cwd_ w in
  (ignore_errors = true ->
   forall rc cmd out err, res.1 <> Raise (CalledProcessError rc cmd out err))
  /\ (forall p, res.1 = Ok p ->
        args p = shell_cmd
        /\ returncode p = exit_status r
        /\ decode (out_bytes r) = Some (stdout p)
        /\ decode (err_bytes r) = Some (stderr p)
        /\ (ignore_errors = false -> returncode p = 0)
        /\ exists msg,
            log res.2 = log w ++ [(if bool_decide (returncode p = 0) then DEBUG else ERROR, msg)]).
Proof.
  intros sp r res. subst res. rewrite shell_runner_run_cases. fold sp r.
  destruct (in_time timeout r); [|split; [intros _ ?; done|intros p; done]].
  destruct (decode (out_bytes r)) as [out|]; [|split; [intros _ ?; done|intros p; done]].
  destruct (decode (err_bytes r)) as [err|]; [|split; [intros _ ?; done|intros p; done]].
  cbv zeta.
  destruct (accepts _ _ _); [|split; [intros _ ?; done|intros p; done]].
  cbn [fst snd]. split.
  - intros -> rc cmd o e. rewrite andb_false_r. done.
  - intros p Hp.
    destruct (bool_decide (exit_status r ≠ 0) && negb ignore_errors) eqn:Hraise;
      [discriminate|].
    injection Hp as <-. cbn [args returncode stdout stderr log add_log add_spawn].
    split; [done|]. split; [done|]. split; [done|]. split; [done|]. split.
    + intros ->. rewrite andb_true_r in Hraise.
      apply bool_decide_eq_false_1 in Hraise. by destruct (decide (exit_status r = 0)).
    + unfold log_entry. cbn [returncode].
      destruct (bool_decide (exit_status r = 0)); by eexists.
Qed.

(** [ShellRunner.run] keeps what neither logging nor starting a child
    touches. *)
Lemma preserves_shell_runner_run {B} (f : World -> B) (self : ShellRunner)
    (shell_cmd : Args) (env : option (gmap string string)) (ignore_errors : bool)
    (timeout : option N) (shell : bool) (cwd_ : option string) :
  log_free f -> spawn_free f ->
  preserves f (ShellRunner_run self shell_cmd env ignore_errors timeout shell cwd_).
Proof.
  intros Hlog Hspawn. unfold ShellRunner_run.
  apply preserves_bind; [apply preserves_gets|intros os_environ].
  apply preserves_bind; [by apply preserves_subprocess_run|intros p].
  frame.
Qed.

End Shell_runner_cases.

(** ** The checked runner *)

Section Run_subprocess_cases.
Context `{Host}.

(** [run_subprocess] starts its child, with no timeout, and hands the
    finished process to [check_subprocess_output] when asked to. *)
Lemma run_subprocess_run (command_line : string) (logger : Logger)
    (check_output : bool) (cwd_ : option string) (shell : bool)
    (update_env : option (gmap string string)) (w : World) :
  let a := if shell then ArgStr command_line
           else ArgList (WStr <$> Str.split_ws command_line) in
  let sp := mkSpawn a shell cwd_ (updated_env (environ w) (default ∅ update_env)) None in
  let r := exec (spawned w) sp in
  run_subprocess command_line logger check_output cwd_ shell update_env w =
  if check_output
  then check_subprocess_output
         (mkCompleted a (exit_status r) (out_bytes r) (err_bytes r)) logger (add_spawn sp w)
  else (Ok tt, add_spawn sp w).
Proof. by destruct shell, check_output. Qed.

Lemma check_subprocess_output_logged
    (output : CompletedProcess (list Byte.byte)) (logger : Logger) (w : World)
    (out err : string) :
  let cmd := joined_args (args output) in
  let entry := checked_entry cmd (returncode output) out err in
  decode (stdout output) = Some out ->
  decode (stderr output) = Some err ->
  accepts logger entry.1 entry.2 = true ->
  check_subprocess_output output logger w =
    (if bool_decide (returncode output = 0) then Ok tt
     else Raise (CalledProcessError (returncode output) (ArgStr cmd) out err),
     add_log entry.1 entry.2 w).
Proof.
  intros cmd entry Hout Herr Hacc. subst entry.
  unfold check_subprocess_output, bytes_decode. rewrite Hout, Herr.
  cbv beta iota delta [mbind M_bind mret M_ret].
  unfold checked_entry, checked_message in *. fold cmd.
  destruct (bool_decide (returncode output = 0)); cbn [fst snd] in *;
    munfold; by rewrite Hacc.
Qed.

(** X4. [run_subprocess] with [check_output] set: once both streams decode
    and the logger takes the entry, it returns when the exit code is zero
    and otherwise raises [CalledProcessError] with the exit code, the
    words of the command joined by blanks, and both decoded streams; one
    child has been started, with no timeout, and one record logged, at
    level debug for zero and error otherwise, in which the header line
    comes once more for each stream that is not empty. *)
Theorem run_subprocess_checked (command_line : string) (logger : Logger)
    (cwd_ : option string) (shell : bool)
    (update_env : option (gmap string string)) (w : World) (out err : string) :
  let a := if shell then ArgStr command_line
           else ArgList (WStr <$> Str.split_ws command_line) in
  let sp := mkSpawn a shell cwd_ (updated_env (environ w) (default ∅ update_env)) None in
  let r := exec (spawned w) sp in
  let entry := checked_entry (joined_args a) (exit_status r) out err in
  decode (out_bytes r) = Some out ->
  decode (err_bytes r) = Some err ->
  accepts logger entry.1 entry.2 = true ->
  run_subprocess command_line logger true cwd_ shell update_env w =
    (if bool_decide (exit_status r = 0) then Ok tt
     else Raise (CalledProcessError (exit_status r) (ArgStr (joined_args a)) out err),
     add_log entry.1 entry.2 (add_spawn sp w))
  /\ entry.1 = (if bool_decide (exit_status r = 0) then DEBUG else ERROR).
Proof.
  intros a sp r entry Hout Herr Hacc.
  rewrite run_subprocess_run. fold a sp r. split.
  - by rewrite (check_subprocess_output_logged _ logger _ out err).
  - subst entry. unfold checked_entry. by destruct (bool_decide (exit_status r = 0)).
Qed.

(** X5. [run_subprocess] with [check_output] set and a logger that raises
    on the entry but takes the two fallback records: the logger's exception
    is caught, the fallback records are logged in place of the entry, and
    the call returns or raises [CalledProcessError] by the exit code
    alone. *)
Theorem run_subprocess_survives_logger_failure (command_line : string)
    (logger : Logger) (cwd_ : option string) (shell : bool)
    (update_env : option (gmap string string)) (w : World) (out err : string) :
  let a := if shell then ArgStr command_line
           else ArgList (WStr <$> Str.split_ws command_line) in
  let sp := mkSpawn a shell cwd_ (updated_env (environ w) (default ∅ update_env)) None in
  let r := exec (spawned w) sp in
  let entry := checked_entry (joined_args a) (exit_status r) out err in
  let encoded :=
    "Encoded log message:" +:+ nl +:+
    encoded_repr (checked_message (joined_args a) (exit_status r) out err) in
  let first_fallback := if bool_decide (exit_status r = 0) then WARNING else ERROR in
  let second_fallback := if bool_decide (exit_status r = 0) then DEBUG else ERROR in
  decode (out_bytes r) = Some out ->
  decode (err_bytes r) = Some err ->
  accepts logger entry.1 entry.2 = false ->
  accepts logger first_fallback
    "An error occurred when trying to logging the output date" = true ->
  accepts logger second_fallback encoded = true ->
  let res := run_subprocess command_line logger true cwd_ shell update_env w in
  res.1 = (if bool_decide (exit_status r = 0) then Ok tt
           else Raise (CalledProcessError (exit_status r) (ArgStr (joined_args a)) out err))
  /\ log res.2 =
     log w ++ [(first_fallback, "An error occurred when trying to logging the output date");
               (second_fallback, encoded)].
Proof.
  intros a sp r entry encoded f1 f2 Hout Herr Hrej Hf1 Hf2 res. subst res.
  rewrite run_subprocess_run. fold a sp r.
  rewrite (check_subprocess_output_swallows
             (mkCompleted a (exit_status r) (out_bytes r) (err_bytes r))
             logger (add_spawn sp w) out err Hout Herr Hrej Hf1 Hf2).
  cbn [fst snd args returncode log add_log add_spawn].
  split; [done|]. by rewrite <- (assoc_L (++)).
Qed.

End Run_subprocess_cases.

(** ** Splitting a command line and joining it again *)

Section Command_words.

Lemma chars_app (s t : string) :
  list_ascii_of_string (s +:+ t) = list_ascii_of_string s ++ list_ascii_of_string t.
Proof. induction s as [|a s IH]; [done|]. rewrite app_cons. cbn. by rewrite IH. Qed.

Lemma flush_word (s : string) : s ≠ "" -> Str.flush s = [s].
Proof. by destruct s. Qed.

(** A text free of whitespace is read as one field. *)
Lemma split_ws_from_plain (tok s : string) :
  Forall (fun c => Str.isspace c = false) (list_ascii_of_string s) ->
  Str.split_ws_from tok s = Str.flush (tok +:+ s).
Proof.
  revert tok. induction s as [|c s IH]; intros tok Hs.
  - by rewrite app_empty_r_str.
  - cbn in Hs. apply Forall_cons in Hs as [Hc Hs]. cbn [Str.split_ws_from].
    rewrite Hc, IH by done. by rewrite app_assoc_str.
Qed.

Lemma flush_words (tok : string) :
  Forall (fun c => Str.isspace c = false) (list_ascii_of_string tok) ->
  Forall is_word (Str.flush tok).
Proof.
  intros Htok. destruct tok as [|a tok]; [apply Forall_nil_2|].
  apply Forall_cons. split; [|apply Forall_nil_2]. by split.
Qed.

(** The fields of a split are words. *)
Lemma split_ws_from_words (tok s : string) :
  Forall (fun c => Str.isspace c = false) (list_ascii_of_string tok) ->
  Forall is_word (Str.split_ws_from tok s).
Proof.
  revert tok. induction s as [|c s IH]; intros tok Htok; cbn [Str.split_ws_from].
  - by apply flush_words.
  - destruct (Str.isspace c) eqn:Hc.
    + apply Forall_app. split; [by apply flush_words|].
      apply IH. apply Forall_nil_2.
    + apply IH. rewrite chars_app. apply Forall_app. split; [done|].
      apply Forall_cons. split; [done|apply Forall_nil_2].
Qed.

(** Words joined by single blanks split into themselves. *)
Lemma split_ws_join (l : list string) :
  Forall is_word l -> Str.split_ws (Str.join " " l) = l.
Proof.
  unfold Str.split_ws. induction 1 as [|x l [Hne Hplain] Hl IH]; [done|].
  destruct l as [|y l].
  - cbn [Str.join]. rewrite split_ws_from_plain by done. by apply flush_word.
  - change (Str.join " " (x :: y :: l)) with (x +:+ String " " (Str.join " " (y :: l))).
    rewrite split_ws_from_blank by done. rewrite IH.
    rewrite split_ws_from_plain by done. by rewrite flush_word.
Qed.

Lemma word_str_of_str (l : list string) : word_str <$> (WStr <$> l) = l.
Proof. rewrite <- list_fmap_compose. apply list_fmap_id. Qed.

(** X7. The command text that [check_subprocess_output] logs and raises
    for a command line split by [run_subprocess] has the words of the
    command line, separated by single blanks: splitting it again gives the
    same words, and it is the command line itself when that is made of
    words separated by single blanks. *)
Theorem joined_split_command_line (command_line : string) (l : list string) :
  joined_args (ArgList (WStr <$> Str.split_ws command_line))
    = Str.join " " (Str.split_ws command_line)
  /\ Str.split_ws (joined_args (ArgList (WStr <$> Str.split_ws command_line)))
     = Str.split_ws command_line
  /\ (Forall is_word l ->
      joined_args (ArgList (WStr <$> Str.split_ws (Str.join " " l))) = Str.join " " l).
Proof.
  cbn [joined_args]. rewrite word_str_of_str. split; [done|]. split.
  - apply split_ws_join. apply split_ws_from_words. apply Forall_nil_2.
  - intros Hl. by rewrite word_str_of_str, split_ws_join.
Qed.

End Command_words.

(** ** The guard and the extraction *)

Section Guard.

Lemma lcp_is_prefix (d t : string) : Str.lcp d t = d -> Str.startswith d t = true.
Proof.
  revert t. induction d as [|a d IH]; intros t Hl; [done|].
  destruct t as [|b t]; [discriminate|]. cbn [Str.lcp Str.startswith] in *.
  destruct (Ascii.eqb a b); [|discriminate]. injection Hl as Hl. by apply IH.
Qed.

Lemma startswith_app_cancel (d p s : string) :
  Str.startswith (d +:+ p) (d +:+ s) = Str.startswith p s.
Proof.
  induction d as [|a d IH]; [done|].
  rewrite !app_cons. cbn [Str.startswith]. by rewrite Ascii.eqb_refl.
Qed.

Lemma within_prefix (cwd_ directory target : string) :
  within cwd_ directory target = true <->
  exists rest, PosixPath.abspath cwd_ target = PosixPath.abspath cwd_ directory +:+ rest.
Proof.
  unfold within, PosixPath.commonprefix. cbn [fold_left].
  rewrite bool_decide_eq_true. split.
  - intros Hl. by apply startswith_inv, lcp_is_prefix.
  - intros [rest ->]. apply lcp_startswith, startswith_app.
Qed.

(** X8. The test of [is_within_directory] holds exactly when the absolute
    target starts, character by character, with the absolute directory.
    So every target at or below the directory passes it; but so does a
    target that continues the directory's last name with other characters
    (a sibling such as [/opt/dlx] for [/opt/dl]), which is outside the
    directory. *)
Theorem is_within_directory_compares_characters (directory target : string) (w : World) :
  let abs_directory := PosixPath.abspath (cwd w) directory in
  let abs_target := PosixPath.abspath (cwd w) target in
  (exists answer,
      is_within_directory directory target w = (Ok answer, w)
      /\ (answer = true <-> exists rest, abs_target = abs_directory +:+ rest))
  /\ (descends_from abs_directory abs_target = true ->
      is_within_directory directory target w = (Ok true, w))
  /\ (forall c rest,
        abs_target = abs_directory +:+ String c rest ->
        c <> "/"%char ->
        Str.endswith "/" abs_directory = false ->
        is_within_directory directory target w = (Ok true, w)
        /\ falls_outside (cwd w) directory target).
Proof.
  intros abs_directory abs_target. split; [|split].
  - exists (within (cwd w) directory target). split; [done|]. apply within_prefix.
  - intros Hd. rewrite is_within_directory_run. by rewrite within_of_descends.
  - intros c rest Ht Hc Hend. split.
    + rewrite is_within_directory_run.
      assert (within (cwd w) directory target = true) as ->; [|done].
      apply within_prefix. by exists (String c rest).
    + unfold falls_outside, descends_from. fold abs_directory abs_target.
      rewrite Hend, Ht. apply orb_false_iff. split.
      * apply bool_decide_eq_false_2. intros Heq.
        rewrite <- (app_empty_r_str abs_directory) in Heq at 2.
        by apply (inj (String.app abs_directory)) in Heq.
      * rewrite startswith_app_cancel. cbn [Str.startswith].
        destruct (Ascii.eqb "/" c) eqn:E; [|done].
        apply Ascii.eqb_eq in E. by subst c.
Qed.

Lemma forallb_cases {A} (test : A -> bool) (l : list A) :
  (forallb test l = true /\ Forall (fun a => test a = true) l)
  \/ (forallb test l = false /\ Exists (fun a => test a = false) l).
Proof.
  induction l as [|a l IH]; [left; by split|]. cbn [forallb].
  destruct (test a) eqn:Ha.
  - destruct IH as [[-> Hall]|[-> Hex]]; [left|right]; (split; [done|]).
    + by apply Forall_cons.
    + by apply Exists_cons_tl.
  - right. split; [done|]. by apply Exists_cons_hd.
Qed.

Lemma extractall_run `{Host} (tar : list TarInfo) (path : string) (w : World) :
  extractall tar path w =
  match extract_stop (dirs w) (files w) (member_paths path tar) with
  | None => (Ok tt, add_files (member_paths path tar) w)
  | Some (n, e) => (Raise e, add_files (take n (member_paths path tar)) w)
  end.
Proof. reflexivity. Qed.

(** X9. [safe_extract] checks every member before it writes any.  When
    some member fails the guard, the path-traversal exception is raised
    and the world is as it was, the members ahead of the failing one
    included.  When all pass, the outcome is that of [tar.extractall]:
    every member written in archive order when it completes, and when the
    operating system refuses a member, its error with the members ahead
    of that one written. *)
Theorem safe_extract_checks_before_writing `{Host} (tar : list TarInfo)
    (path : string) (w : World) :
  (Exists (fun member =>
             within (cwd w) path (PosixPath.join path (name member)) = false) tar
   /\ safe_extract tar path w =
        (Raise (Exception_ "Attempted Path Traversal in Tar File"), w))
  \/ (Forall (fun member =>
                within (cwd w) path (PosixPath.join path (name member)) = true) tar
      /\ ((extract_stop (dirs w) (files w) (member_paths path tar) = None
           /\ safe_extract tar path w = (Ok tt, add_files (member_paths path tar) w))
          \/ (exists n e,
                extract_stop (dirs w) (files w) (member_paths path tar) = Some (n, e)
                /\ safe_extract tar path w =
                     (Raise e, add_files (take n (member_paths path tar)) w)))).
Proof.
  rewrite safe_extract_run.
  destruct (forallb_cases
              (fun member => within (cwd w) path (PosixPath.join path (name member))) tar)
    as [[-> Hall]|[-> Hex]]; [right|left; by split].
  split; [done|]. rewrite extractall_run.
  destruct (extract_stop _ _ _) as [[n e]|]; [right|left; by split].
  by exists n, e.
Qed.

(** X10. [safe_extract] never raises its path-traversal exception on an
    archive whose members all resolve to the root or below it: the guard
    lets every member through and the outcome is that of [tar.extractall],
    which writes them all when the operating system refuses none. *)
Theorem safe_extract_accepts_descendants `{Host} (tar : list TarInfo)
    (path : string) (w : World) :
  Forall (fun member =>
            descends_from (PosixPath.abspath (cwd w) path)
              (PosixPath.abspath (cwd w) (PosixPath.join path (name member))) = true) tar ->
  safe_extract tar path w = extractall tar path w
  /\ (extract_stop (dirs w) (files w) (member_paths path tar) = None ->
      safe_extract tar path w = (Ok tt, add_files (member_paths path tar) w)).
Proof.
  intros Hall.
  assert (Hpass : safe_extract tar path w = extractall tar path w).
  { rewrite safe_extract_run. rewrite forallb_of_Forall; [done|].
    eapply Forall_impl; [exact Hall|]. intros member. apply within_of_descends. }
  split; [exact Hpass|]. intros Hnone. by rewrite Hpass, extractall_run, Hnone.
Qed.

End Guard.

Lemma safe_extract_accepts_descendants_witness :
  safe_extract (H:=Sample.host)
    [mkTarInfo "sdk/install.sh"; mkTarInfo "./sdk/../readme.txt"] "/opt/dl" Sample.world =
  (Ok tt, add_files ["/opt/dl/sdk/install.sh"; "/opt/dl/./sdk/../readme.txt"] Sample.world).
Proof.
  destruct (safe_extract_accepts_descendants (H:=Sample.host)
              [mkTarInfo "sdk/install.sh"; mkTarInfo "./sdk/../readme.txt"] "/opt/dl"
              Sample.world) as [_ Hdone].
  - repeat (apply Forall_cons; split; [vm_compute; reflexivity|]). apply Forall_nil_2.
  - apply Hdone. reflexivity.
Defined.

(** ** What the operations leave alone, and what they leave behind *)

Section Footprint.
Context `{Host}.

#[local] Hint Resolve preserves_bytes_decode preserves_log_subprocess
  preserves_check_returncode preserves_check_subprocess_output
  preserves_subprocess_run preserves_run_subprocess
  preserves_shell_runner_run : frame.

Lemma preserves_safe_extract {B} (f : World -> B) (tar : list TarInfo) (path : string) :
  extract_free f -> preserves f (safe_extract tar path).
Proof.
  intros Hf. unfold safe_extract.
  apply preserves_bind.
  - apply preserves_for_each. intros member.
    apply preserves_bind; [by intros w|intros answer].
    destruct answer; by intros w.
  - intros _ w. rewrite extractall_run.
    destruct (extract_stop _ _ _) as [[n e]|]; apply Hf.
Qed.

Lemma preserves_install_one {B} (f : World -> B) (dir : string) (logger : Logger)
    (installer : Pathlib.Path) :
  log_free f -> spawn_free f -> preserves f (install_one dir logger installer).
Proof. intros Hlog Hspawn. unfold install_one. frame. Qed.

Lemma preserves_extract_and_install_toolchain {B} (f : World -> B)
    (tar_path : Pathlib.Path) (tar_file : list TarInfo) (dir : string) (logger : Logger) :
  log_free f -> spawn_free f -> extract_free f ->
  preserves f (extract_and_install_toolchain tar_path tar_file dir logger).
Proof.
  intros Hlog Hspawn Hextract. unfold extract_and_install_toolchain.
  apply preserves_bind; [by apply preserves_log_call|intros _].
  apply preserves_bind.
  - case_match; [apply preserves_raise|].
    apply preserves_bind; [by apply preserves_safe_extract|intros _; apply preserves_ret].
  - intros installers.
    apply preserves_bind; [by apply preserves_log_call|intros _].
    apply preserves_for_each. intros installer.
    by apply (preserves_install_one f dir logger installer).
Qed.

(** X11. None of the operations changes the environment of the process or
    its working directory, however it ends: the overrides of
    [run_subprocess] go to a copy of the environment, for the child
    alone. *)
Theorem environment_and_directory_untouched (command_line : string) (logger : Logger)
    (check_output : bool) (cwd_ : option string) (shell : bool)
    (update_env : option (gmap string string))
    (self : ShellRunner) (shell_cmd : Args) (env : option (gmap string string))
    (ignore_errors : bool) (timeout : option N)
    (tar_path : Pathlib.Path) (tar_file : list TarInfo) (dir : string)
    (arch : Arch) (w : World) :
  let after_run_subprocess :=
    (run_subprocess command_line logger check_output cwd_ shell update_env w).2 in
  let after_run :=
    (ShellRunner_run self shell_cmd env ignore_errors timeout shell cwd_ w).2 in
  let after_install :=
    (extract_and_install_toolchain tar_path tar_file dir logger w).2 in
  let after_packages := (install_compilers_apt_packages arch w).2 in
  (environ after_run_subprocess = environ w /\ cwd after_run_subprocess = cwd w)
  /\ (environ after_run = environ w /\ cwd after_run = cwd w)
  /\ (environ after_install = environ w /\ cwd after_install = cwd w)
  /\ (environ after_packages = environ w /\ cwd after_packages = cwd w).
Proof.
  assert (Henv : spawn_free environ) by done.
  assert (Hcwd : spawn_free cwd) by done.
  assert (Henv' : extract_free environ) by done.
  assert (Hcwd' : extract_free cwd) by done.
  cbv zeta. repeat split.
  - by apply preserves_run_subprocess; auto with frame.
  - by apply preserves_run_subprocess; auto with frame.
  - by apply preserves_shell_runner_run; auto with frame.
  - by apply preserves_shell_runner_run; auto with frame.
  - by apply preserves_extract_and_install_toolchain; auto with frame.
  - by apply preserves_extract_and_install_toolchain; auto with frame.
  - unfold install_compilers_apt_packages. rewrite bind_world; [|intros ? ?; done].
    by apply preserves_shell_runner_run; auto with frame.
  - unfold install_compilers_apt_packages. rewrite bind_world; [|intros ? ?; done].
    by apply preserves_shell_runner_run; auto with frame.
Qed.

(** X12. Once the archive has a candidate and passes the guard (the logger
    having taken the opening record), what [tar.extractall] wrote stays
    written however the operation goes on: all the members, in archive
    order, when the extraction completes, and then a failing installer or
    a later logging error undoes nothing; the members ahead of the refused
    one when the operating system stops the extraction, and then that
    error is raised and no installer is started. *)
Theorem extraction_is_kept (tar_path : Pathlib.Path) (tar_file : list TarInfo)
    (dir : string) (logger : Logger) (w : World) :
  accepts logger INFO "extracting toolchain" = true ->
  Exists (fun member => is_installer member = true) tar_file ->
  Forall (fun member => member_within (cwd w) tar_path member = true) tar_file ->
  let targets := member_paths (tar_dir_of tar_path) tar_file in
  let res := extract_and_install_toolchain tar_path tar_file dir logger w in
  files res.2 = files w ++ written_of w targets
  /\ (forall n e,
        extract_stop (dirs w) (files w) targets = Some (n, e) ->
        res.1 = Raise e /\ spawned res.2 = spawned w).
Proof.
  intros Hlog Hcand Hguard targets res. subst res.
  rewrite extract_and_install_toolchain_run, Hlog. cbv zeta.
  pose proof (some_candidate tar_path tar_file Hcand) as Hne.
  destruct (toolchain_installers_of tar_path tar_file) as [|inst insts]; [done|].
  rewrite forallb_of_Forall by done.
  rewrite extractall_run. cbn [dirs files add_log]. fold targets. unfold written_of.
  destruct (extract_stop (dirs w) (files w) targets) as [[n e]|].
  - cbn [fst snd]. split; [done|]. intros n' e' [= <- <-]. done.
  - split; [|intros n e; discriminate].
    assert (Hkeep : preserves files
              (log_call logger INFO "installing toolchain" ;;
               for_each (inst :: insts) (install_one dir logger))).
    { apply preserves_bind; [by apply preserves_log_call|intros _].
      apply preserves_for_each. intros installer.
      by apply (preserves_install_one files dir logger installer). }
    by rewrite Hkeep.
Qed.

(** X13. [install_compilers_apt_packages] does not suppress a failure: once
    the output of the package manager decodes and the [shell_runner] logger
    takes the entry, it returns when the command exits with zero and raises
    otherwise the [CalledProcessError] that carries the command line, the
    exit code and both streams; it sets no timeout, so it never raises
    [TimeoutExpired]. *)
Theorem install_compilers_apt_packages_outcome (arch : Arch) (w : World)
    (out err : string) :
  let line := "sudo apt-get install -y " +:+ Str.join " " (apt_packages arch) in
  let r := exec (spawned w) (mkSpawn (ArgStr line) true None (environ w) None) in
  let p := mkCompleted (ArgStr line) (exit_status r) out err in
  decode (out_bytes r) = Some out ->
  decode (err_bytes r) = Some err ->
  accepts (getLogger "shell_runner") (log_entry p).1 (log_entry p).2 = true ->
  (install_compilers_apt_packages arch w).1 =
    (if bool_decide (exit_status r = 0) then Ok tt
     else Raise (CalledProcessError (exit_status r) (ArgStr line) out err)).
Proof.
  intros line r p Hout Herr Hacc.
  unfold install_compilers_apt_packages. fold line.
  unfold mbind, M_bind.
  rewrite (shell_runner_run_finished (ShellRunner_init None) (ArgStr line)
             None false None true None w out err eq_refl Hout Herr).
  cbn [default]. fold r p. cbn [_logger ShellRunner_init default]. rewrite Hacc.
  rewrite andb_true_r.
  destruct (decide (exit_status r = 0)) as [Hz|Hnz].
  - rewrite (bool_decide_eq_false_2 (exit_status r ≠ 0)) by (intros Hn; by apply Hn).
    by rewrite bool_decide_eq_true_2.
  - rewrite (bool_decide_eq_true_2 (exit_status r ≠ 0)) by done.
    by rewrite bool_decide_eq_false_2.
Qed.

End Footprint.

(** ** The scoped working directory, when the target is missing *)

(** X14. When the target directory does not exist (or is the empty path),
    [working_directory] raises the error of [os.chdir] and the wrapped
    operation is not run at all: the world is exactly as it was, the
    working directory included. *)
Theorem working_directory_missing_target {A} (target_directory : string)
    (body : string -> M A) (w : World) :
  PosixPath.isabs (cwd w) = true ->
  PosixPath.normpath (cwd w) = cwd w ->
  cwd w ∈ dirs w ->
  target_directory = "" \/ PosixPath.abspath (cwd w) target_directory ∉ dirs w ->
  working_directory target_directory body w =
    (Raise (FileNotFoundError target_directory), w).
Proof.
  intros Habs Hnorm Hdir Hmissing. unfold working_directory.
  change (try_finally (chdir target_directory ;; body target_directory)
            (chdir (cwd w)) w = (Raise (FileNotFoundError target_directory), w)).
  rewrite try_finally_run.
  assert (Hfail : (chdir target_directory ;; body target_directory) w =
                  (Raise (FileNotFoundError target_directory), w)).
  { unfold mbind, M_bind, chdir.
    destruct Hmissing as [-> | Hnot]; [done|].
    rewrite (bool_decide_eq_false_2 _ Hnot). by rewrite andb_false_r. }
  rewrite Hfail. cbn [fst snd].
  rewrite (chdir_back _ _ Habs Hnorm Hdir). by destruct w.
Qed.

Lemma working_directory_missing_target_witness :
  working_directory "/nowhere" (fun _ => chdir "/opt" : M unit) Sample.world =
    (Raise (FileNotFoundError "/nowhere"), Sample.world).
Proof.
  apply (working_directory_missing_target "/nowhere"
           (fun _ => chdir "/opt" : M unit) Sample.world).
  - reflexivity.
  - reflexivity.
  - vm_compute. reflexivity.
  - right. vm_compute. intros Hin. discriminate Hin.
Defined.

(** ** The command text of a shell line in the log *)

Section Shell_line.

Lemma joined_chars_cons (c d : ascii) (s : string) :
  joined_args (ArgStr (String c (String d s))) =
  String c (String " " (joined_args (ArgStr (String d s)))).
Proof. reflexivity. Qed.

(** X16. For a command given as one text, as [install_compilers_apt_packages]
    does, the command shown in the log record is not the text: joining the
    [str] of its elements takes the text character by character, so each
    character comes out at twice its position, with a blank after each one
    but the last. *)
Theorem shell_line_is_logged_spaced (s : string) (i : nat) :
  (i < String.length s)%nat ->
  String.get (2 * i) (joined_args (ArgStr s)) = String.get i s
  /\ (S i < String.length s ->
      String.get (2 * i + 1) (joined_args (ArgStr s)) = Some " "%char)%nat
  /\ String.length (joined_args (ArgStr s)) = (2 * String.length s - 1)%nat.
Proof.
  revert i. induction s as [|c s IH]; intros i Hi; [cbn in Hi; lia|].
  destruct s as [|d s].
  - cbn in Hi. assert (i = 0%nat) as -> by lia. split; [done|]. split; [cbn; lia|done].
  - rewrite joined_chars_cons. destruct i as [|i].
    + split; [done|]. split; [done|].
      cbn [String.length]. destruct (IH 0%nat) as (_ & _ & ->); cbn [String.length]; lia.
    + destruct (IH i) as (Hget & Hblank & Hlen); [cbn [String.length] in *; lia|].
      replace (2 * S i)%nat with (S (S (2 * i))) by lia.
      replace (S (S (2 * i)) + 1)%nat with (S (S (2 * i + 1))) by lia.
      cbn [String.get]. split; [exact Hget|]. split.
      * intros Hlt. apply Hblank. cbn [String.length] in *. lia.
      * cbn [String.length] in *. lia.
Qed.

End Shell_line.

Lemma shell_line_is_logged_spaced_witness :
  String.get 2 (joined_args (ArgStr "sudo apt-get")) = Some "u"%char
  /\ String.get 3 (joined_args (ArgStr "sudo apt-get")) = Some " "%char.
Proof.
  destruct (shell_line_is_logged_spaced "sudo apt-get" 1) as (Hget & Hblank & _).
  - cbn. lia.
  - split; [exact Hget|]. apply Hblank. cbn. lia.
Defined.

(** ** A stream that does not decode, on the checked runner *)

(** X15. [run_subprocess] with [check_output] set decodes both streams
    before anything else: when one does not decode, the decoding error is
    raised with nothing logged, and a command that failed is not reported
    as [CalledProcessError]. *)
Theorem run_subprocess_undecodable_output `{Host} (command_line : string)
    (logger : Logger) (cwd_ : option string) (shell : bool)
    (update_env : option (gmap string string)) (w : World) :
  let a := if shell then ArgStr command_line
           else ArgList (WStr <$> Str.split_ws command_line) in
  let sp := mkSpawn a shell cwd_ (updated_env (environ w) (default ∅ update_env)) None in
  let r := exec (spawned w) sp in
  decode (out_bytes r) = None \/ decode (err_bytes r) = None ->
  run_subprocess command_line logger true cwd_ shell update_env w =
    (Raise UnicodeDecodeError, add_spawn sp w).
Proof.
  intros a sp r Hbad. rewrite run_subprocess_run. fold a sp r.
  unfold check_subprocess_output, bytes_decode. cbn [stdout stderr].
  destruct Hbad as [-> | Herr]; [done|].
  destruct (decode (out_bytes r)); [|done].
  cbv beta iota delta [mbind M_bind mret M_ret raise]. by rewrite Herr.
Qed.

(** ** Witnesses *)

Lemma shell_runner_timeout_expires_witness :
  (ShellRunner_run (H:=Sample.host) (ShellRunner_init (H:=Sample.host) None)
     (ArgStr "make") None true (Some 1%N) true None Sample.world).1
  = Raise (TimeoutExpired (ArgStr "make") 1).
Proof.
  destruct (shell_runner_timeout_expires (H:=Sample.host)
              (ShellRunner_init (H:=Sample.host) None)
              (ArgStr "make") None true 1%N true None Sample.world) as [Hres _].
  - vm_compute. reflexivity.
  - by rewrite Hres.
Defined.

Lemma shell_runner_undecodable_output_witness :
  (ShellRunner_run (H:=Sample_edge.binary_host)
     (ShellRunner_init (H:=Sample_edge.binary_host) None)
     (ArgStr "cat blob") None true None true None Sample.world).1
  = Raise UnicodeDecodeError.
Proof.
  destruct (shell_runner_undecodable_output (H:=Sample_edge.binary_host)
              (ShellRunner_init (H:=Sample_edge.binary_host) None)
              (ArgStr "cat blob") None true None true None Sample.world) as [Hres _].
  - reflexivity.
  - left. reflexivity.
  - by rewrite Hres.
Defined.

Lemma run_subprocess_undecodable_output_witness :
  (run_subprocess (H:=Sample_edge.binary_host) "cat blob" Sample.steady_logger
     true None false None Sample.world).1
  = Raise UnicodeDecodeError.
Proof.
  rewrite (run_subprocess_undecodable_output (H:=Sample_edge.binary_host) "cat blob"
             Sample.steady_logger None false None Sample.world); [done|].
  left. reflexivity.
Defined.

Lemma run_subprocess_checked_witness :
  (run_subprocess (H:=Sample.host) "make  fail" Sample.steady_logger
     true None false None Sample.world).1
  = Raise (CalledProcessError 1 (ArgStr "make fail") "" "boom").
Proof.
  destruct (run_subprocess_checked (H:=Sample.host) "make  fail" Sample.steady_logger
              None false None Sample.world "" "boom") as [Hres _].
  - reflexivity.
  - reflexivity.
  - reflexivity.
  - rewrite Hres. vm_compute. reflexivity.
Defined.

Lemma run_subprocess_survives_logger_failure_witness :
  let res := run_subprocess (H:=Sample.host) "make all" Sample.fragile_logger
               true None false None Sample.world in
  res.1 = Ok tt /\ length (log res.2) = 2%nat.
Proof.
  destruct (run_subprocess_survives_logger_failure (H:=Sample.host) "make all"
              Sample.fragile_logger None false None Sample.world "done" "")
    as [Hres Hlog].
  - reflexivity.
  - reflexivity.
  - vm_compute. reflexivity.
  - vm_compute. reflexivity.
  - vm_compute. reflexivity.
  - split; [rewrite Hres; vm_compute; reflexivity|]. by rewrite Hlog.
Defined.

Lemma extraction_is_kept_witness :
  let res := extract_and_install_toolchain (H:=Sample.host) Sample.tar_path
               [mkTarInfo "fail/setup.sh"; mkTarInfo "readme.txt"] "/usr/local/tc"
               Sample.steady_logger Sample.world in
  files res.2 = ["/opt/dl/fail/setup.sh"; "/opt/dl/readme.txt"].
Proof.
  intros res. subst res.
  destruct (extraction_is_kept (H:=Sample.host) Sample.tar_path
              [mkTarInfo "fail/setup.sh"; mkTarInfo "readme.txt"] "/usr/local/tc"
              Sample.steady_logger Sample.world) as [Hfiles _].
  - reflexivity.
  - apply Exists_cons_hd. reflexivity.
  - repeat (apply Forall_cons; split; [vm_compute; reflexivity|]). apply Forall_nil_2.
  - rewrite Hfiles. vm_compute. reflexivity.
Defined.

Lemma install_compilers_apt_packages_outcome_witness :
  (install_compilers_apt_packages (H:=Sample.host) AARCH64 Sample.world).1 = Ok tt.
Proof.
  rewrite (install_compilers_apt_packages_outcome (H:=Sample.host) AARCH64
             Sample.world "done" ""); [vm_compute; reflexivity|..]; reflexivity.
Defined.

(** ** The installers, one after the other *)

Section Installers.
Context `{Host}.



End Installers.



(** C4, as stated, fails: this child exits with zero and [ignore_errors]
    is set, yet [run] does not return: the child's output does not decode
    and the decoding error leaves the call. *)
Lemma shell_runner_exit_zero_may_raise :
  let sp := mkSpawn (ArgStr "cat blob") true None (environ Sample.world) None in
  let r := exec (Host:=Sample_edge.binary_host) (spawned Sample.world) sp in
  let res := ShellRunner_run (H:=Sample_edge.binary_host)
               (ShellRunner_init (H:=Sample_edge.binary_host) None)
               (ArgStr "cat blob") None true None true None Sample.world in
  ~ (~ (exit_status r ≠ 0 /\ true = false) ->
     exists p, res.1 = Ok p /\ returncode p = exit_status r).
Proof.
  intros sp r res Hclaim.
  destruct Hclaim as (p & Hp & _); [by intros [_ ?]|].
  vm_compute in Hp. discriminate.
Qed.

(** C8, as stated, fails: this wrapped operation removes the directory
    that was current on entry; the [os.chdir] of the [finally] clause then
    raises and the working directory stays the target. *)
Lemma working_directory_entry_removed :
  let res := working_directory "/tmp"
               (fun _ => Sample_edge.rmdir "/home/build") Sample.world in
  ~ (cwd res.2 = cwd Sample.world).
Proof. intros res. vm_compute. discriminate. Qed.

(** The command line of an installer is split on whitespace with no
    quoting: for an installer whose path holds a blank, the program
    started is the part of the path ahead of the blank. *)
Example blank_in_installer_path :
  let res := extract_and_install_toolchain (H:=Sample.host) Sample.tar_path
               [mkTarInfo "my tools/install.sh"] "/usr/local/tc"
               Sample.steady_logger Sample.world in
  Pathlib.to_string <$> toolchain_installers_of Sample.tar_path
                          [mkTarInfo "my tools/install.sh"]
    = ["/opt/dl/my tools/install.sh"]
  /\ sp_args <$> spawned res.2 =
     [ArgList [WStr "/opt/dl/my"; WStr "tools/install.sh"; WStr "-d";
               WStr "/usr/local/tc"; WStr "-y"]].
Proof. vm_compute. split; reflexivity. Qed.
